(** * Recurrent modules of the C++ front end: [torch/csrc/api/src/nn/modules/rnn.cpp]

    A shallow embedding of the configuration, validation and dispatch code of
    [RNNImplBase], [LSTMImpl] and [GRUImpl], and the properties of it that
    the specification states.

    Conventions.
    - [int64_t] values are [Z]; products computed by the code go through
      [mul64], which writes out the two's-complement wrap-around of the
      machine.
    - [double] values are primitive binary64 floats.
    - A [Tensor] is a handle: [None] is the undefined tensor [Tensor()].
    - Member functions run in the monad [M]: they read and update [this], and
      they leave a log of the calls made into the framework (allocation,
      fused kernels, warnings).  A call either returns, raises a [c10::Error]
      or has no defined behaviour.
    - The framework operations that the file calls but does not define are
      the fields of the class [Torch]. *)

From Stdlib Require Import ZArith List String Ascii Bool Lia Floats DecimalString.
From Stdlib Require Import DecimalPos DecimalZ.
Import ListNotations.
Open Scope string_scope.
Open Scope Z_scope.

Set Implicit Arguments.

(** ** Machine integers *)

Definition wrap64 (z : Z) : Z := (z + 2 ^ 63) mod 2 ^ 64 - 2 ^ 63.

Definition mul64 (a b : Z) : Z := wrap64 (a * b).

Definition in_int64 (z : Z) : Prop := - 2 ^ 63 <= z < 2 ^ 63.

(** [std::to_string] of an [int64_t]. *)
Definition to_string (z : Z) : string := NilZero.string_of_int (Z.to_int z).

(** ** Results of a call *)

Inductive outcome (A : Type) : Type :=
| Ok (a : A)
| Raise (msg : string)
| Undef.

Arguments Ok {A} a.
Arguments Raise {A} msg.
Arguments Undef {A}.

Definition obind {A B} (o : outcome A) (k : A -> outcome B) : outcome B :=
  match o with
  | Ok a => k a
  | Raise msg => Raise msg
  | Undef => Undef
  end.

Definition raises {A} (o : outcome A) : Prop := exists msg, o = Raise msg.

(** [TORCH_CHECK(cond, msg)]. *)
Definition TORCH_CHECK (cond : bool) (msg : string) : outcome unit :=
  if cond then Ok tt else Raise msg.

(** ** Tensors *)

Inductive ScalarType := kFloat | kDouble | kHalf | kInt | kLong | kUndefinedType.

Definition ScalarType_eqb (a b : ScalarType) : bool :=
  match a, b with
  | kFloat, kFloat | kDouble, kDouble | kHalf, kHalf
  | kInt, kInt | kLong, kLong | kUndefinedType, kUndefinedType => true
  | _, _ => false
  end.

Inductive Device := CPU | CUDA (index : Z).

(** Modelled from the spec: the tensor type belongs to the framework
    ("tensor allocation/execution" is an external collaborator).  The record
    holds what [rnn.cpp] observes of a tensor.  [t_elems] are the elements
    in row-major order where the file reads them ([batch_sizes[0]]); the
    floating-point payload of weights and activations is never read here. *)
Record TensorImpl := mkTensor {
  t_sizes : list Z;
  t_dtype : ScalarType;
  t_device : Device;
  t_data_ptr : Z;
  t_elems : list Z
}.

Definition Tensor := option TensorImpl.

Definition defined (t : Tensor) : bool :=
  match t with Some _ => true | None => false end.

Definition sizes (t : Tensor) : outcome (list Z) :=
  match t with
  | Some i => Ok (t_sizes i)
  | None => Raise "sizes() called on undefined Tensor"
  end.

Definition dim (t : Tensor) : outcome Z :=
  match t with
  | Some i => Ok (Z.of_nat (List.length (t_sizes i)))
  | None => Raise "dim() called on undefined Tensor"
  end.

(** [t.size(d)]: a negative [d] counts from the last dimension. *)
Definition size (t : Tensor) (d : Z) : outcome Z :=
  match t with
  | Some i =>
      let n := Z.of_nat (List.length (t_sizes i)) in
      let d' := if d <? 0 then d + n else d in
      if (0 <=? d') && (d' <? n)
      then Ok (nth (Z.to_nat d') (t_sizes i) 0)
      else Raise "Dimension out of range"
  | None => Raise "size() called on undefined Tensor"
  end.

Definition dtype (t : Tensor) : ScalarType :=
  match t with Some i => t_dtype i | None => kUndefinedType end.

Definition device (t : Tensor) : outcome Device :=
  match t with
  | Some i => Ok (t_device i)
  | None => Raise "tensor does not have a device"
  end.

Definition is_cuda (t : Tensor) : bool :=
  match t with
  | Some i => match t_device i with CUDA _ => true | CPU => false end
  | None => false
  end.

(** [flatten_parameters] asks for [data_ptr()] only of tensors that passed
    [is_cuda()], which are defined. *)
Definition data_ptr (t : Tensor) : Z :=
  match t with Some i => t_data_ptr i | None => 0 end.

(** [t[0].item<int64_t>()]: the first slice along dimension 0 must exist and
    hold exactly one element. *)
Definition index0_item (t : Tensor) : outcome Z :=
  match t with
  | Some i =>
      match t_sizes i with
      | [] => Raise "invalid index of a 0-dim tensor"
      | d0 :: rest =>
          if d0 <=? 0 then Raise "index 0 is out of bounds for dimension 0"
          else if fold_right Z.mul 1 rest =? 1
               then match t_elems i with
                    | e :: _ => Ok e
                    | [] => Undef
                    end
               else Raise "only one element tensors can be converted to scalars"
      end
  | None => Raise "select() called on undefined Tensor"
  end.

Fixpoint list_Z_eqb (a b : list Z) : bool :=
  match a, b with
  | [], [] => true
  | x :: a', y :: b' => (x =? y) && list_Z_eqb a' b'
  | _, _ => false
  end.

(** ** Enumerations *)

(** Modelled from the spec: the variant [rnn_options_base_mode_t] is
    declared in the options header.  Its alternatives are those that
    [rnn.cpp] names; [kOther] stands for whatever further alternative
    reaches the final [else] of the [get_if] chains. *)
Inductive rnn_options_base_mode_t :=
| kLSTM | kGRU | kRNN_TANH | kRNN_RELU | kOther (name : string).

Definition get_enum_name (m : rnn_options_base_mode_t) : string :=
  match m with
  | kLSTM => "kLSTM" | kGRU => "kGRU"
  | kRNN_TANH => "kRNN_TANH" | kRNN_RELU => "kRNN_RELU"
  | kOther n => n
  end.

Inductive nonlinearity_t := kTanh | kReLU | kOtherNonlinearity (name : string).

Inductive CuDNNMode := CuDNN_RNN_RELU | CuDNN_RNN_TANH | CuDNN_LSTM | CuDNN_GRU.

Definition CuDNNMode_code (m : CuDNNMode) : Z :=
  match m with
  | CuDNN_RNN_RELU => 0 | CuDNN_RNN_TANH => 1 | CuDNN_LSTM => 2 | CuDNN_GRU => 3
  end.

(** The fused recurrent kernels of the operator library. *)
Inductive Kernel := Krnn_tanh | Krnn_relu | Klstm | Kgru.

(** The two overloads of every kernel: padded input with [batch_first], and
    packed data with [batch_sizes]. *)
Inductive KernelArgs :=
| Unpacked (input : Tensor) (hx : list Tensor) (params : list Tensor)
    (has_biases : bool) (num_layers : Z) (dropout : float)
    (train bidirectional batch_first : bool)
| Packed (data batch_sizes : Tensor) (hx : list Tensor) (params : list Tensor)
    (has_biases : bool) (num_layers : Z) (dropout : float)
    (train bidirectional : bool).


Definition args_hx (a : KernelArgs) : list Tensor :=
  match a with
  | Unpacked _ hx _ _ _ _ _ _ _ => hx
  | Packed _ _ hx _ _ _ _ _ _ => hx
  end.

(** ** Options and module state *)

(** Modelled from the spec: the options, the packed sequence and the data
    members of the module are declared in headers; the records list the
    accessors and members that [rnn.cpp] uses. *)
Record RNNOptionsBase := mkOptions {
  mode : rnn_options_base_mode_t;
  input_size : Z;
  hidden_size : Z;
  num_layers : Z;
  bias : bool;
  batch_first : bool;
  dropout : float;
  bidirectional : bool
}.

Record PackedSequence := mkPacked {
  ps_data : Tensor;
  ps_batch_sizes : Tensor;
  ps_sorted_indices : Tensor;
  ps_unsorted_indices : Tensor
}.

Record Module := mkModule {
  options : RNNOptionsBase;
  parameters_ : list (string * Tensor);
  _flat_weights_names : list string;
  _all_weights : list (list string);
  _flat_weights : list Tensor;
  is_training : bool
}.

(** Calls into the framework, in the order they are made. *)
Inductive Event :=
| EvWarn (msg : string)
| EvEmpty (shape : list Z) (result : Tensor)
| EvZeros (shape : list Z) (dt : ScalarType) (dev : Device) (result : Tensor)
| EvUniform (weight : Tensor) (low high : float)
| EvFlatten (weights : list Tensor) (weight_stride0 in_size : Z)
    (cudnn_mode : CuDNNMode) (hidden layers : Z) (bfirst bidir : bool)
| EvKernel (k : Kernel) (args : KernelArgs).

Record Env := mkEnv {
  this : Module;
  next_ptr : Z;
  log : list Event
}.

(** ** The monad of member functions *)

Definition M (A : Type) : Type := Env -> outcome A * Env.

Definition ret {A} (a : A) : M A := fun e => (Ok a, e).

Definition bind {A B} (m : M A) (k : A -> M B) : M B :=
  fun e =>
    match m e with
    | (Ok a, e') => k a e'
    | (Raise msg, e') => (Raise msg, e')
    | (Undef, e') => (Undef, e')
    end.

Definition lift {A} (o : outcome A) : M A := fun e => (o, e).

Definition undef {A} : M A := fun e => (Undef, e).

Definition get_this : M Module := fun e => (Ok (this e), e).

Definition set_this (m : Module) : M unit :=
  fun e => (Ok tt, mkEnv m (next_ptr e) (log e)).

Definition emit (ev : Event) : M unit :=
  fun e => (Ok tt, mkEnv (this e) (next_ptr e) (log e ++ [ev])).

Definition fresh_ptr : M Z :=
  fun e => (Ok (next_ptr e), mkEnv (this e) (next_ptr e + 1) (log e)).

Declare Scope monad_scope.
Delimit Scope monad_scope with monad.
Notation "x <- m ;; k" := (bind m (fun x => k))
  (at level 61, m at next level, right associativity) : monad_scope.
Notation "m ;; k" := (bind m (fun _ => k))
  (at level 61, right associativity) : monad_scope.
Open Scope monad_scope.

(** [for (x : xs) body(x)]. *)
Fixpoint for_each {A} (xs : list A) (body : A -> M unit) : M unit :=
  match xs with
  | [] => ret tt
  | x :: xs' => body x ;; for_each xs' body
  end.

(** [for (int64_t i = 0; i < n; i++)]. *)
Definition range (n : Z) : list Z := map Z.of_nat (seq 0 (Z.to_nat n)).

(** ** String substitution

    [std::regex_replace(s, std::regex("\\{layer}"), rep)] and its sibling
    for [{suffix}]: each pattern matches one literal text, and every match
    is replaced, scanning from the left. *)

Fixpoint replace_from (pat rep : string) (skip : nat) (s : string) : string :=
  match s with
  | EmptyString => EmptyString
  | String c s' =>
      match skip with
      | S k => replace_from pat rep k s'
      | O =>
          if String.prefix pat s
          then rep ++ replace_from pat rep (String.length pat - 1) s'
          else String c (replace_from pat rep 0 s')
      end
  end.

Definition regex_replace (s pat rep : string) : string := replace_from pat rep 0 s.

(** Rendering of a size list inside an error message. *)
Definition show_sizes (l : list Z) : string :=
  "[" ++ String.concat ", " (map to_string l) ++ "]".

(** [(double) z] for an [int64_t]: the nearest binary64 value. *)
Definition double_of_int64 (z : Z) : float :=
  SF2Prim (SpecFloat.binary_normalize FloatOps.prec FloatOps.emax z 0 false).

(** ** The framework *)

(** Function pointers of type [RNNFunctionSignature]: "the function
    signature of rnn_relu, rnn_tanh and gru". *)
Inductive RNNFunction := fn_rnn_tanh | fn_rnn_relu | fn_gru.

Definition kernel_of (f : RNNFunction) : Kernel :=
  match f with
  | fn_rnn_tanh => Krnn_tanh
  | fn_rnn_relu => Krnn_relu
  | fn_gru => Kgru
  end.

(** The operations of the tensor library and of the operator library that
    [rnn.cpp] calls, taken as parameters: their results are the
    framework's, and [rnn.cpp] only routes them. *)
Class Torch := {
  index_select : Tensor -> Z -> Tensor -> outcome Tensor;
  cudnn_is_acceptable : Tensor -> bool;
  rnn_tanh : KernelArgs -> outcome (Tensor * Tensor);
  rnn_relu : KernelArgs -> outcome (Tensor * Tensor);
  gru : KernelArgs -> outcome (Tensor * Tensor);
  lstm : KernelArgs -> outcome (Tensor * Tensor * Tensor);
  (** where [_cudnn_rnn_flatten_weight] leaves the storage of each weight:
      the call works in place and moves the weights into one buffer *)
  _cudnn_rnn_flatten_weight :
    list Tensor -> Z -> Z -> CuDNNMode -> Z -> Z -> bool -> bool ->
    outcome (list Z);
  (** the [TensorOptions] that [torch::empty(sizes)] defaults to *)
  default_dtype : ScalarType;
  default_device : Device
}.

Definition numel (shape : list Z) : Z := fold_right Z.mul 1 shape.

Section Framework.
Context `{Torch}.

(** Modelled from the spec: tensor allocation is the framework's.
    [torch::empty(shape)] gives fresh storage with nothing readable in it
    yet. *)
Definition torch_empty (shape : list Z) : M Tensor :=
  p <- fresh_ptr ;;
  let t := Some (mkTensor shape default_dtype default_device p []) in
  emit (EvEmpty shape t) ;;
  ret t.

(** Modelled from the spec: tensor allocation is the framework's.
    [torch::zeros(shape, torch::dtype(dt).device(dev))] gives fresh storage
    filled with zeros. *)
Definition torch_zeros (shape : list Z) (dt : ScalarType) (dev : Device) : M Tensor :=
  p <- fresh_ptr ;;
  let t := Some (mkTensor shape dt dev p (repeat 0 (Z.to_nat (numel shape)))) in
  emit (EvZeros shape dt dev t) ;;
  ret t.

Definition TORCH_WARN (msg : string) : M unit := emit (EvWarn msg).

(** Modelled from the spec: initialisation is the framework's.
    [init::uniform_(weight, low, high)] fills the storage in place. *)
Definition uniform_ (weight : Tensor) (low high : float) : M unit :=
  emit (EvUniform weight low high).

(** Calling a kernel through a function pointer, and directly. *)
Definition run_impl (f : RNNFunction) (args : KernelArgs) : outcome (Tensor * Tensor) :=
  match f with
  | fn_rnn_tanh => rnn_tanh args
  | fn_rnn_relu => rnn_relu args
  | fn_gru => gru args
  end.

Definition call_impl (f : RNNFunction) (args : KernelArgs) : M (Tensor * Tensor) :=
  emit (EvKernel (kernel_of f) args) ;; lift (run_impl f args).

Definition torch_gru (args : KernelArgs) : M (Tensor * Tensor) :=
  emit (EvKernel Kgru args) ;; lift (gru args).

Definition torch_lstm (args : KernelArgs) : M (Tensor * Tensor * Tensor) :=
  emit (EvKernel Klstm args) ;; lift (lstm args).

(** *** The generic module base class *)

Fixpoint lookup (name : string) (d : list (string * Tensor)) : option Tensor :=
  match d with
  | [] => None
  | (n, t) :: d' => if String.eqb n name then Some t else lookup name d'
  end.

Fixpoint rebind (name : string) (t : Tensor) (d : list (string * Tensor))
  : list (string * Tensor) :=
  match d with
  | [] => []
  | (n, t0) :: d' =>
      if String.eqb n name then (n, t) :: d' else (n, t0) :: rebind name t d'
  end.

Definition set_data_ptr (t : Tensor) (p : Z) : Tensor :=
  match t with
  | Some i => Some (mkTensor (t_sizes i) (t_dtype i) (t_device i) p (t_elems i))
  | None => None
  end.

Fixpoint repoint (ws : list Tensor) (ptrs : list Z) : list Tensor :=
  match ws, ptrs with
  | w :: ws', p :: ptrs' => set_data_ptr w p :: repoint ws' ptrs'
  | _, _ => ws
  end.

Definition with_parameters (m : Module) (p : list (string * Tensor)) : Module :=
  mkModule (options m) p (_flat_weights_names m) (_all_weights m)
           (_flat_weights m) (is_training m).

Definition with_names (m : Module) (fwn : list string) (aw : list (list string)) : Module :=
  mkModule (options m) (parameters_ m) fwn aw (_flat_weights m) (is_training m).

Definition with_flat_weights (m : Module) (fw : list Tensor) : Module :=
  mkModule (options m) (parameters_ m) (_flat_weights_names m) (_all_weights m)
           fw (is_training m).

(** Modelled from the spec: parameter registration is "machinery of the
    generic module base class".  [Module::register_parameter(name, param)]
    puts the entry at the end of the ordered dictionary of parameters. *)
Definition register_parameter (name : string) (param : Tensor) : M unit :=
  self <- get_this ;;
  set_this (with_parameters self (parameters_ self ++ [(name, param)])).

(** Modelled from the spec: [Module::named_parameters(/*recurse=*/false)],
    of the module base class, is the dictionary itself. *)
Definition named_parameters : M (list (string * Tensor)) :=
  self <- get_this ;; ret (parameters_ self).

(** Modelled from the spec: [Module::parameters()], of the module base
    class, lists the registered tensors in order. *)
Definition parameters : M (list Tensor) :=
  self <- get_this ;; ret (map snd (parameters_ self)).

(** ** Free functions of [rnn.cpp] *)

Definition _rnn_impls : list (string * RNNFunction) :=
  [("RNN_TANH", fn_rnn_tanh); ("RNN_RELU", fn_rnn_relu)].

(** [_rnn_impls[key]]: a key that is absent yields the null pointer. *)
Fixpoint map_at (key : string) (m : list (string * RNNFunction)) : option RNNFunction :=
  match m with
  | [] => None
  | (k, f) :: m' => if String.eqb k key then Some f else map_at key m'
  end.

Definition get_cudnn_mode_for_rnn (m : rnn_options_base_mode_t) : outcome CuDNNMode :=
  match m with
  | kRNN_RELU => Ok CuDNN_RNN_RELU
  | kRNN_TANH => Ok CuDNN_RNN_TANH
  | kLSTM => Ok CuDNN_LSTM
  | kGRU => Ok CuDNN_GRU
  | kOther _ => Raise ("Unknown mode: " ++ get_enum_name m)
  end.

Definition get_rnn_impl (m : rnn_options_base_mode_t) : outcome (option RNNFunction) :=
  match m with
  | kRNN_TANH => Ok (map_at "RNN_TANH" _rnn_impls)
  | kRNN_RELU => Ok (map_at "RNN_RELU" _rnn_impls)
  | _ => Raise ("Unknown mode: " ++ get_enum_name m)
  end.

(** [dim] is the defaulted third argument, [1]. *)
Definition apply_permutation (tensor permutation : Tensor) (dim : Z) : outcome Tensor :=
  index_select tensor dim permutation.

Definition apply_permutation_default_dim : Z := 1.

Definition compute_rnn_options_base_mode (nonlinearity : nonlinearity_t)
  : outcome rnn_options_base_mode_t :=
  match nonlinearity with
  | kTanh => Ok kRNN_TANH
  | kReLU => Ok kRNN_RELU
  | kOtherNonlinearity n => Raise ("Unknown nonlinearity " ++ n)
  end.

(** ** [detail::RNNImplBase] *)

Definition dropout_message : string :=
  "dropout should be a number in range [0, 1] " ++
  "representing the probability of an element being " ++
  "zeroed".

(** The text of the warning; the source appends the two offending values. *)
Definition dropout_warning : string :=
  "dropout option adds dropout after all but last " ++
  "recurrent layer, so non-zero dropout expects " ++
  "num_layers greater than 1".

Definition param_name_templates (with_biases : bool) : list string :=
  ["weight_ih_l{layer}{suffix}"; "weight_hh_l{layer}{suffix}"] ++
  (if with_biases then ["bias_ih_l{layer}{suffix}"; "bias_hh_l{layer}{suffix}"] else []).

Definition fill_template (layer : Z) (suffix : string) (template : string) : string :=
  let x := regex_replace template "{layer}" (to_string layer) in
  regex_replace x "{suffix}" suffix.

Definition direction_suffix (direction : Z) : string :=
  if direction =? 1 then "_reverse" else "".

(** [flatten_parameters]: the returns before the call into cuDNN are kept
    as they are written; [_flat_weights[0]] of an empty vector is outside
    the language's defined behaviour.  The stride argument reads
    [options.with_bias()], which is the [bias()] option. *)
Definition flatten_parameters : M unit :=
  self <- get_this ;;
  let o := options self in
  let fws := _flat_weights self in
  if negb (Nat.eqb (List.length fws) (List.length (_flat_weights_names self)))
  then ret tt
  else
    match fws with
    | [] => undef
    | first_fw :: _ =>
        let dt := dtype first_fw in
        if existsb (fun fw => negb (ScalarType_eqb (dtype fw) dt)
                              || negb (is_cuda fw)
                              || negb (cudnn_is_acceptable fw)) fws
        then ret tt
        else
          let unique_data_ptrs := nodup Z.eq_dec (map data_ptr fws) in
          if negb (Nat.eqb (List.length unique_data_ptrs) (List.length fws))
          then ret tt
          else
            cudnn_mode <- lift (get_cudnn_mode_for_rnn (mode o)) ;;
            let stride := if bias o then 4 else 2 in
            emit (EvFlatten fws stride (input_size o) cudnn_mode (hidden_size o)
                            (num_layers o) (batch_first o) (bidirectional o)) ;;
            ptrs <- lift (_cudnn_rnn_flatten_weight fws stride (input_size o)
                            cudnn_mode (hidden_size o) (num_layers o)
                            (batch_first o) (bidirectional o)) ;;
            (* the call works in place, and the module's parameters are the
               same tensors *)
            let fws' := repoint fws ptrs in
            let params' :=
              fold_left (fun d nt => rebind (fst nt) (snd nt) d)
                        (combine (_flat_weights_names self) fws')
                        (parameters_ self) in
            set_this (with_flat_weights (with_parameters self params') fws')
    end.

Definition reset_flat_weights : M unit :=
  self <- get_this ;;
  named <- named_parameters ;;
  set_this (with_flat_weights self
    (map (fun wn => match lookup wn named with
                    | Some t => t
                    | None => None
                    end) (_flat_weights_names self))).

Definition reset_parameters : M unit :=
  self <- get_this ;;
  let stdv := PrimFloat.div 1%float
                (PrimFloat.sqrt (double_of_int64 (hidden_size (options self)))) in
  ws <- parameters ;;
  for_each ws (fun weight => uniform_ weight (PrimFloat.opp stdv) stdv).

Definition gate_size_of (o : RNNOptionsBase) : outcome Z :=
  match mode o with
  | kLSTM => Ok (mul64 4 (hidden_size o))
  | kGRU => Ok (mul64 3 (hidden_size o))
  | kRNN_TANH => Ok (hidden_size o)
  | kRNN_RELU => Ok (hidden_size o)
  | kOther _ => Raise ("Unrecognized RNN mode: " ++ get_enum_name (mode o))
  end.

(** The body of the two nested loops of [reset]. *)
Definition reset_layer_direction (gate_size num_directions layer direction : Z) : M unit :=
  self <- get_this ;;
  let o := options self in
  let layer_input_size :=
    if layer =? 0 then input_size o else mul64 (hidden_size o) num_directions in
  w_ih <- torch_empty [gate_size; layer_input_size] ;;
  w_hh <- torch_empty [gate_size; hidden_size o] ;;
  b_ih <- torch_empty [gate_size] ;;
  b_hh <- torch_empty [gate_size] ;;
  let layer_params := [w_ih; w_hh; b_ih; b_hh] in
  let suffix := direction_suffix direction in
  let param_names :=
    map (fill_template layer suffix) (param_name_templates (bias o)) in
  for_each (combine param_names layer_params)
           (fun np => register_parameter (fst np) (snd np)) ;;
  self <- get_this ;;
  set_this (with_names self (_flat_weights_names self ++ param_names)
                            (_all_weights self ++ [param_names])).

Definition reset : M unit :=
  self <- get_this ;;
  let o := options self in
  let num_directions := if bidirectional o then 2 else 1 in
  lift (TORCH_CHECK (PrimFloat.leb 0%float (dropout o) && PrimFloat.leb (dropout o) 1%float)
                    dropout_message) ;;
  (if PrimFloat.ltb 0%float (dropout o) && (num_layers o =? 1)
   then TORCH_WARN dropout_warning
   else ret tt) ;;
  gate_size <- lift (gate_size_of o) ;;
  set_this (with_names self [] []) ;;
  for_each (range (num_layers o)) (fun layer =>
    for_each (range num_directions) (fun direction =>
      reset_layer_direction gate_size num_directions layer direction)) ;;
  reset_flat_weights ;;
  flatten_parameters ;;
  reset_parameters.

(** The constructor: [options(std::move(options_))], then [reset()].  A new
    module is in training mode and has no parameter yet. *)
Definition new_module (o : RNNOptionsBase) : Module :=
  mkModule o [] [] [] [] true.

Definition RNNImplBase_ctor (o : RNNOptionsBase) : M unit :=
  set_this (new_module o) ;; reset.

Definition check_input (input batch_sizes : Tensor) : M unit :=
  self <- get_this ;;
  let expected_input_dim := if defined batch_sizes then 2 else 3 in
  d <- lift (dim input) ;;
  lift (TORCH_CHECK (d =? expected_input_dim)
          ("input must have " ++ to_string expected_input_dim ++
           " dimensions, got " ++ to_string d)) ;;
  last <- lift (size input (-1)) ;;
  lift (TORCH_CHECK (input_size (options self) =? last)
          ("input.size(-1) must be equal to input_size. Expected " ++
           to_string (input_size (options self)) ++ " got " ++ to_string last)).

Definition get_expected_hidden_size (input batch_sizes : Tensor) : M (Z * Z * Z) :=
  self <- get_this ;;
  let o := options self in
  mini_batch <- lift (if defined batch_sizes
                      then index0_item batch_sizes
                      else if batch_first o then size input 0 else size input 1) ;;
  let num_directions := if bidirectional o then 2 else 1 in
  ret (mul64 (num_layers o) num_directions, mini_batch, hidden_size o).

Definition default_hidden_message : string := "Expected hidden size {1}, got {2}".

Definition check_hidden_size (hx : Tensor) (expected_hidden_size : Z * Z * Z)
    (msg : string) : M unit :=
  let '(e0, e1, e2) := expected_hidden_size in
  s <- lift (sizes hx) ;;
  if negb (list_Z_eqb s [e0; e1; e2])
  then
    let msg := regex_replace msg "{1}" (show_sizes [e0; e1; e2]) in
    let msg := regex_replace msg "{2}" (show_sizes s) in
    lift (Raise msg)
  else ret tt.

Definition check_forward_args (input hidden batch_sizes : Tensor) : M unit :=
  check_input input batch_sizes ;;
  expected_hidden_size <- get_expected_hidden_size input batch_sizes ;;
  check_hidden_size hidden expected_hidden_size default_hidden_message.

Definition permute_hidden (hx permutation : Tensor) : outcome Tensor :=
  if negb (defined permutation) then Ok hx
  else apply_permutation hx permutation apply_permutation_default_dim.

(** The initial state when the caller gave none. *)
Definition zero_state (input : Tensor) (max_batch_size : Z) : M Tensor :=
  self <- get_this ;;
  let o := options self in
  let num_directions := if bidirectional o then 2 else 1 in
  dev <- lift (device input) ;;
  torch_zeros [mul64 (num_layers o) num_directions; max_batch_size; hidden_size o]
              (dtype input) dev.

(** The first statement of every [forward_helper] that takes a [Tensor]
    state: zeros when [hx] is undefined, the permuted [hx] otherwise. *)
Definition initial_hidden (input sorted_indices : Tensor) (max_batch_size : Z)
    (hx : Tensor) : M Tensor :=
  if negb (defined hx)
  then zero_state input max_batch_size
  else lift (permute_hidden hx sorted_indices).

Definition unpacked_args (self : Module) (input : Tensor) (hx : list Tensor) : KernelArgs :=
  let o := options self in
  Unpacked input hx (_flat_weights self) (bias o) (num_layers o) (dropout o)
           (is_training self) (bidirectional o) (batch_first o).

Definition packed_args (self : Module) (input batch_sizes : Tensor) (hx : list Tensor)
  : KernelArgs :=
  let o := options self in
  Packed input batch_sizes hx (_flat_weights self) (bias o) (num_layers o)
         (dropout o) (is_training self) (bidirectional o).

(** [RNNImplBase::forward_helper].  [_impl] is applied to the argument list
    written at each of its two call sites.  The body ends after [hidden] is
    bound: no [return] statement follows, so control runs off the end of a
    function that returns a value. *)
Definition forward_helper (input batch_sizes sorted_indices : Tensor)
    (max_batch_size : Z) (hx : Tensor) : M (Tensor * Tensor) :=
  self <- get_this ;;
  hx <- initial_hidden input sorted_indices max_batch_size hx ;;
  check_forward_args input hx batch_sizes ;;
  _impl <- lift (get_rnn_impl (mode (options self))) ;;
  match _impl with
  | None => lift (Raise "bad_function_call")
  | Some f =>
      result <- (if negb (defined batch_sizes)
                 then call_impl f (unpacked_args self input [hx])
                 else call_impl f (packed_args self input batch_sizes [hx])) ;;
      let output := fst result in
      let hidden := snd result in
      undef
  end.

Definition forward (input hx : Tensor) : M (Tensor * Tensor) :=
  self <- get_this ;;
  let batch_sizes : Tensor := None in
  max_batch_size <- lift (if batch_first (options self)
                          then size input 0 else size input 1) ;;
  let sorted_indices : Tensor := None in
  let unsorted_indices : Tensor := None in
  r <- forward_helper input batch_sizes sorted_indices max_batch_size hx ;;
  let '(output, hidden) := r in
  h <- lift (permute_hidden hidden unsorted_indices) ;;
  ret (output, h).

Definition forward_packed (packed_input : PackedSequence) (hx : Tensor)
  : M (PackedSequence * Tensor) :=
  let input := ps_data packed_input in
  let batch_sizes := ps_batch_sizes packed_input in
  let sorted_indices := ps_sorted_indices packed_input in
  let unsorted_indices := ps_unsorted_indices packed_input in
  max_batch_size <- lift (index0_item batch_sizes) ;;
  r <- forward_helper input batch_sizes sorted_indices max_batch_size hx ;;
  let '(output, hidden) := r in
  let output_packed := mkPacked output batch_sizes sorted_indices unsorted_indices in
  h <- lift (permute_hidden hidden unsorted_indices) ;;
  ret (output_packed, h).

(** [RNNImplBase::all_weights]: [named_parameters[weight]] of a name that
    is absent is an error of the ordered dictionary. *)
Definition all_weights : M (list Tensor) :=
  self <- get_this ;;
  named <- named_parameters ;;
  fold_left (fun (acc : M (list Tensor)) weight =>
               result <- acc ;;
               match lookup weight named with
               | Some t => ret (result ++ [t])%list
               | None => lift (Raise ("Key '" ++ weight ++ "' is not defined"))
               end)
            (List.concat (_all_weights self)) (ret []).

End Framework.

(** ** [LSTMImpl] *)

Module LSTMImpl.
Section WithTorch.
Context `{Torch}.

(** [LSTMOptions] carries the fields of [RNNOptionsBase] but the mode, which
    the constructor fixes to [kLSTM]. *)
Definition ctor (options_ : RNNOptionsBase) : M unit :=
  RNNImplBase_ctor
    (mkOptions kLSTM (input_size options_) (hidden_size options_)
               (num_layers options_) (bias options_) (batch_first options_)
               (dropout options_) (bidirectional options_)).

Definition check_forward_args (input : Tensor) (hidden : Tensor * Tensor)
    (batch_sizes : Tensor) : M unit :=
  check_input input batch_sizes ;;
  expected_hidden_size <- get_expected_hidden_size input batch_sizes ;;
  check_hidden_size (fst hidden) expected_hidden_size
                    "Expected hidden[0] size {1}, got {2}" ;;
  check_hidden_size (snd hidden) expected_hidden_size
                    "Expected hidden[1] size {1}, got {2}".

Definition permute_hidden (hx : Tensor * Tensor) (permutation : Tensor)
  : outcome (Tensor * Tensor) :=
  if negb (defined permutation) then Ok hx
  else
    obind (apply_permutation (fst hx) permutation apply_permutation_default_dim)
      (fun h =>
    obind (apply_permutation (snd hx) permutation apply_permutation_default_dim)
      (fun c => Ok (h, c))).

(** The first statement of [forward_helper]: the same zero tensor twice when
    [hx_opt] is empty, the permuted pair otherwise. *)
Definition initial_hidden (input sorted_indices : Tensor) (max_batch_size : Z)
    (hx_opt : option (Tensor * Tensor)) : M (Tensor * Tensor) :=
  match hx_opt with
  | None =>
      zeros <- zero_state input max_batch_size ;;
      ret (zeros, zeros)
  | Some hx => lift (permute_hidden hx sorted_indices)
  end.

Definition forward_helper (input batch_sizes sorted_indices : Tensor)
    (max_batch_size : Z) (hx_opt : option (Tensor * Tensor))
  : M (Tensor * (Tensor * Tensor)) :=
  self <- get_this ;;
  hx <- initial_hidden input sorted_indices max_batch_size hx_opt ;;
  check_forward_args input hx batch_sizes ;;
  result <- (if negb (defined batch_sizes)
             then torch_lstm (unpacked_args self input [fst hx; snd hx])
             else torch_lstm (packed_args self input batch_sizes [fst hx; snd hx])) ;;
  let output := fst (fst result) in
  let hidden := (snd (fst result), snd result) in
  ret (output, hidden).

Definition forward (input : Tensor) (hx_opt : option (Tensor * Tensor))
  : M (Tensor * (Tensor * Tensor)) :=
  self <- get_this ;;
  let batch_sizes : Tensor := None in
  max_batch_size <- lift (if batch_first (options self)
                          then size input 0 else size input 1) ;;
  let sorted_indices : Tensor := None in
  let unsorted_indices : Tensor := None in
  r <- forward_helper input batch_sizes sorted_indices max_batch_size hx_opt ;;
  let '(output, hidden) := r in
  h <- lift (permute_hidden hidden unsorted_indices) ;;
  ret (output, h).

Definition forward_packed (packed_input : PackedSequence)
    (hx_opt : option (Tensor * Tensor))
  : M (PackedSequence * (Tensor * Tensor)) :=
  let input := ps_data packed_input in
  let batch_sizes := ps_batch_sizes packed_input in
  let sorted_indices := ps_sorted_indices packed_input in
  let unsorted_indices := ps_unsorted_indices packed_input in
  max_batch_size <- lift (index0_item batch_sizes) ;;
  r <- forward_helper input batch_sizes sorted_indices max_batch_size hx_opt ;;
  let '(output, hidden) := r in
  let output_packed := mkPacked output batch_sizes sorted_indices unsorted_indices in
  h <- lift (permute_hidden hidden unsorted_indices) ;;
  ret (output_packed, h).

End WithTorch.
End LSTMImpl.

(** ** [GRUImpl] *)

Module GRUImpl.
Section WithTorch.
Context `{Torch}.

Definition ctor (options_ : RNNOptionsBase) : M unit :=
  RNNImplBase_ctor
    (mkOptions kGRU (input_size options_) (hidden_size options_)
               (num_layers options_) (bias options_) (batch_first options_)
               (dropout options_) (bidirectional options_)).

Definition forward_helper (input batch_sizes sorted_indices : Tensor)
    (max_batch_size : Z) (hx : Tensor) : M (Tensor * Tensor) :=
  self <- get_this ;;
  hx <- initial_hidden input sorted_indices max_batch_size hx ;;
  check_forward_args input hx batch_sizes ;;
  result <- (if negb (defined batch_sizes)
             then torch_gru (unpacked_args self input [hx])
             else torch_gru (packed_args self input batch_sizes [hx])) ;;
  let output := fst result in
  let hidden := snd result in
  ret (output, hidden).

Definition forward (input hx : Tensor) : M (Tensor * Tensor) :=
  self <- get_this ;;
  let batch_sizes : Tensor := None in
  max_batch_size <- lift (if batch_first (options self)
                          then size input 0 else size input 1) ;;
  let sorted_indices : Tensor := None in
  let unsorted_indices : Tensor := None in
  r <- forward_helper input batch_sizes sorted_indices max_batch_size hx ;;
  let '(output, hidden) := r in
  h <- lift (permute_hidden hidden unsorted_indices) ;;
  ret (output, h).

(** The last definition of the file; it is written without the
    [GRUImpl::] qualifier and uses [this] as the members before it do. *)
Definition forward_packed (packed_input : PackedSequence) (hx : Tensor)
  : M (PackedSequence * Tensor) :=
  let input := ps_data packed_input in
  let batch_sizes := ps_batch_sizes packed_input in
  let sorted_indices := ps_sorted_indices packed_input in
  let unsorted_indices := ps_unsorted_indices packed_input in
  max_batch_size <- lift (index0_item batch_sizes) ;;
  r <- forward_helper input batch_sizes sorted_indices max_batch_size hx ;;
  let '(output, hidden) := r in
  let output_packed := mkPacked output batch_sizes sorted_indices unsorted_indices in
  h <- lift (permute_hidden hidden unsorted_indices) ;;
  ret (output_packed, h).

End WithTorch.
End GRUImpl.

(** ** Device and dtype transfer: the three overloads of [RNNImplBase::to] *)

Section Transfer.
Context `{Torch}.

(** Modelled from the spec: [nn::Module::to] is "device-transfer machinery
    of the generic module base class".  It is taken as a parameter: an
    action on the module and on the framework state, of whatever outcome. *)
Variable Module_to : option Device -> option ScalarType -> bool -> M unit.

Definition to_device_dtype (target : Device) (dt : ScalarType) (non_blocking : bool)
  : M unit :=
  Module_to (Some target) (Some dt) non_blocking ;;
  reset_flat_weights ;;
  flatten_parameters.

Definition to_dtype (dt : ScalarType) (non_blocking : bool) : M unit :=
  Module_to None (Some dt) non_blocking ;;
  reset_flat_weights ;;
  flatten_parameters.

Definition to_device (target : Device) (non_blocking : bool) : M unit :=
  Module_to (Some target) None non_blocking ;;
  reset_flat_weights ;;
  flatten_parameters.

End Transfer.

(** ** A framework to run the code on

    Small stand-ins for the operator library, used to evaluate the
    definitions above on concrete inputs.  Kernels echo their input and the
    first state; [index_select] relabels the selected dimension with the
    number of indices. *)

Definition toy_index_select (t : Tensor) (d : Z) (index : Tensor) : outcome Tensor :=
  match t, index with
  | Some i, Some ix =>
      match t_sizes i with
      | s0 :: _ :: rest =>
          if d =? 1
          then Ok (Some (mkTensor (s0 :: numel (t_sizes ix) :: rest) (t_dtype i)
                                  (t_device i) (t_data_ptr i + 1000) (t_elems i)))
          else Raise "index_select: unsupported dimension"
      | _ => Raise "index_select: dimension out of range"
      end
  | _, _ => Raise "index_select: undefined tensor"
  end.

Definition toy_kernel (a : KernelArgs) : outcome (Tensor * Tensor) :=
  match a with
  | Unpacked input hx _ _ _ _ _ _ _ => Ok (input, hd None hx)
  | Packed data _ hx _ _ _ _ _ _ => Ok (data, hd None hx)
  end.

Definition toy_lstm (a : KernelArgs) : outcome (Tensor * Tensor * Tensor) :=
  match a with
  | Unpacked input hx _ _ _ _ _ _ _ => Ok (input, hd None hx, hd None (tl hx))
  | Packed data _ hx _ _ _ _ _ _ => Ok (data, hd None hx, hd None (tl hx))
  end.

Definition toy : Torch := {|
  index_select := toy_index_select;
  cudnn_is_acceptable := fun t => defined t;
  rnn_tanh := toy_kernel;
  rnn_relu := toy_kernel;
  gru := toy_kernel;
  lstm := toy_lstm;
  _cudnn_rnn_flatten_weight :=
    fun ws _ _ _ _ _ _ _ => Ok (map (fun w => data_ptr w + 65536) ws);
  default_dtype := kFloat;
  default_device := CPU
|}.

Definition env0 (m : Module) : Env := mkEnv m 4096 [].

(** A transfer that retargets every registered parameter and keeps its
    storage, for running [to]. *)
Definition toy_convert (target : option Device) (dt : option ScalarType)
    (t : Tensor) : Tensor :=
  match t with
  | Some i =>
      Some (mkTensor (t_sizes i)
              (match dt with Some d => d | None => t_dtype i end)
              (match target with Some d => d | None => t_device i end)
              (t_data_ptr i) (t_elems i))
  | None => None
  end.

Definition toy_Module_to (target : option Device) (dt : option ScalarType)
    (non_blocking : bool) : M unit :=
  self <- get_this ;;
  set_this (with_parameters self
    (map (fun nt => (fst nt, toy_convert target dt (snd nt))) (parameters_ self))).

Definition cpu_tensor (shape : list Z) (ptr : Z) : Tensor :=
  Some (mkTensor shape kFloat CPU ptr []).

Definition cuda_tensor (shape : list Z) (ptr : Z) : Tensor :=
  Some (mkTensor shape kFloat (CUDA 0) ptr []).

Definition long_tensor (elems : list Z) (ptr : Z) : Tensor :=
  Some (mkTensor [Z.of_nat (List.length elems)] kLong CPU ptr elems).

Definition example_options (m : rnn_options_base_mode_t) : RNNOptionsBase :=
  mkOptions m 3 5 2 true false 0%float true.

(** A two-layer bidirectional module as its constructor leaves it. *)
Definition example_module (m : rnn_options_base_mode_t) : Module :=
  this (snd (@RNNImplBase_ctor toy (example_options m)
               (env0 (new_module (example_options m))))).

(** Three sequences of lengths 3, 2, 2 and 1 steps packed over 3 features. *)
Definition example_packed : PackedSequence :=
  mkPacked (cpu_tensor [7; 3] 100) (long_tensor [4; 2; 1] 101)
           (long_tensor [0; 1; 2; 3] 102) (long_tensor [0; 1; 2; 3] 103).

Definition example_state : Tensor := cpu_tensor [4; 4; 5] 104.


Definition one_layer_dropout_options : RNNOptionsBase :=
  mkOptions kGRU 3 5 1 true false 0.5%float false.

(** A module whose weights live on the accelerator, each in its own
    storage, and one where two weights share theirs. *)
Definition cuda_module (second_ptr : Z) : Module :=
  mkModule (mkOptions kGRU 3 5 1 false false 0%float false)
           [("weight_ih_l0", cuda_tensor [15; 3] 200);
            ("weight_hh_l0", cuda_tensor [15; 5] second_ptr)]
           ["weight_ih_l0"; "weight_hh_l0"]
           [["weight_ih_l0"; "weight_hh_l0"]]
           [cuda_tensor [15; 3] 200; cuda_tensor [15; 5] second_ptr]
           true.

(** A padded input of 6 steps for a batch of 4 over 3 features. *)
Definition example_input : TensorImpl := mkTensor [6; 4; 3] kFloat CPU 105 [].

(** A module that lists a name for which nothing is registered. *)
Definition stale_module : Module :=
  mkModule (mkOptions kGRU 3 5 1 false false 0%float false)
           [("weight_ih_l0", cuda_tensor [15; 3] 200)]
           ["weight_ih_l0"; "weight_hh_l0"]
           [["weight_ih_l0"; "weight_hh_l0"]]
           [cuda_tensor [15; 3] 200; cuda_tensor [15; 5] 201]
           true.

(** The toy framework with the accelerator as the default device. *)
Definition toy_cuda : Torch := {|
  index_select := toy_index_select;
  cudnn_is_acceptable := fun t => defined t;
  rnn_tanh := toy_kernel;
  rnn_relu := toy_kernel;
  gru := toy_kernel;
  lstm := toy_lstm;
  _cudnn_rnn_flatten_weight :=
    fun ws _ _ _ _ _ _ _ => Ok (map (fun w => data_ptr w + 65536) ws);
  default_dtype := kFloat;
  default_device := CUDA 0
|}.

(** ** Vocabulary of the statements *)

Definition is_ok {A} (o : outcome A) : bool :=
  match o with Ok _ => true | _ => false end.

(** The kernel calls and the zero-tensor allocations recorded in a log. *)
Definition kernel_calls (l : list Event) : list (Kernel * KernelArgs) :=
  flat_map (fun ev => match ev with EvKernel k a => [(k, a)] | _ => [] end) l.

Definition zeros_calls (l : list Event) : list Tensor :=
  flat_map (fun ev => match ev with EvZeros _ _ _ t => [t] | _ => [] end) l.

Definition flatten_calls (l : list Event) : list (list Tensor) :=
  flat_map (fun ev => match ev with
                      | EvFlatten ws _ _ _ _ _ _ _ => [ws]
                      | _ => []
                      end) l.

Definition warnings (l : list Event) : list string :=
  flat_map (fun ev => match ev with EvWarn m => [m] | _ => [] end) l.

(** The argument list that matches [batch_sizes]: the packed overload when
    it is defined, the padded one otherwise. *)
Definition dispatch_args (self : Module) (input batch_sizes : Tensor)
    (hx : list Tensor) : KernelArgs :=
  if defined batch_sizes
  then packed_args self input batch_sizes hx
  else unpacked_args self input hx.

(** What a call added to the log. *)
Definition new_events (before after : Env) : list Event :=
  skipn (List.length (log before)) (log after).



(** The hidden-state size that the specification expects. *)
Definition spec_num_directions (o : RNNOptionsBase) : Z :=
  if bidirectional o then 2 else 1.

Definition has_value {A} (o : option A) : bool :=
  match o with Some _ => true | None => false end.

(** What the first statement of [forward_helper] adds to the log: one
    allocation of zeros when no state is given and the input has a device,
    nothing otherwise. *)
Definition initial_events (input : Tensor) (given : bool) (mbs : Z) (e : Env)
  : list Event :=
  match given, input with
  | false, Some i =>
      let o := options (this e) in
      let shape := [mul64 (num_layers o) (spec_num_directions o); mbs; hidden_size o] in
      [EvZeros shape (t_dtype i) (t_device i)
         (Some (mkTensor shape (t_dtype i) (t_device i) (next_ptr e)
                         (repeat 0 (Z.to_nat (numel shape)))))]
  | _, _ => []
  end.

Definition spec_mini_batch (o : RNNOptionsBase) (input batch_sizes : Tensor) : outcome Z :=
  match batch_sizes with
  | Some _ => index0_item batch_sizes
  | None => if batch_first o then size input 0 else size input 1
  end.

Definition triple_sizes (t : Z * Z * Z) : list Z :=
  [fst (fst t); snd (fst t); snd t].

(** The conditions under which the specification lets [flatten_parameters]
    call the fusion primitive. *)
Definition flatten_conditions `{Torch} (m : Module) : Prop :=
  List.length (_flat_weights m) = List.length (_flat_weights_names m) /\
  (forall fw, In fw (_flat_weights m) ->
     dtype fw = dtype (hd None (_flat_weights m))) /\
  (forall fw, In fw (_flat_weights m) ->
     is_cuda fw = true /\ cudnn_is_acceptable fw = true) /\
  NoDup (map data_ptr (_flat_weights m)).

(** The parameter layout that the specification describes. *)
Definition spec_gate_size (o : RNNOptionsBase) : option Z :=
  match mode o with
  | kLSTM => Some (mul64 4 (hidden_size o))
  | kGRU => Some (mul64 3 (hidden_size o))
  | kRNN_TANH | kRNN_RELU => Some (hidden_size o)
  | kOther _ => None
  end.

Definition spec_param_name (kind : string) (layer direction : Z) : string :=
  kind ++ "_l" ++ to_string layer ++ (if direction =? 1 then "_reverse" else "").

Definition spec_layer_input_size (o : RNNOptionsBase) (layer : Z) : Z :=
  if layer =? 0 then input_size o
  else mul64 (hidden_size o) (spec_num_directions o).

Definition spec_layer_params (o : RNNOptionsBase) (gate_size layer direction : Z)
  : list (string * list Z) :=
  [(spec_param_name "weight_ih" layer direction,
    [gate_size; spec_layer_input_size o layer]);
   (spec_param_name "weight_hh" layer direction, [gate_size; hidden_size o])] ++
  (if bias o
   then [(spec_param_name "bias_ih" layer direction, [gate_size]);
         (spec_param_name "bias_hh" layer direction, [gate_size])]
   else []).

Definition spec_layout (o : RNNOptionsBase) (gate_size : Z) : list (string * list Z) :=
  flat_map (fun layer =>
    flat_map (fun direction => spec_layer_params o gate_size layer direction)
             (range (spec_num_directions o)))
    (range (num_layers o)).

(** Names and shapes of the registered parameters of a module. *)
Definition shapes_of (d : list (string * Tensor)) : list (string * option (list Z)) :=
  map (fun nt => (fst nt, option_map t_sizes (snd nt))) d.

Definition registered (m : Module) : list (string * option (list Z)) :=
  shapes_of (parameters_ m).

Definition somes (l : list (string * list Z)) : list (string * option (list Z)) :=
  map (fun ns => (fst ns, Some (snd ns))) l.

(** From [e] to [e'] the module has registered [entries], in this order, and
    nothing else of it has changed; no warning was given on the way. *)
Definition registers (e e' : Env) (entries : list (string * list Z)) : Prop :=
  options (this e') = options (this e) /\
  is_training (this e') = is_training (this e) /\
  _flat_weights (this e') = _flat_weights (this e) /\
  registered (this e') = (registered (this e) ++ somes entries)%list /\
  _flat_weights_names (this e') =
    (_flat_weights_names (this e) ++ map fst entries)%list /\
  exists evs, log e' = (log e ++ evs)%list /\ warnings evs = [].

(** No opening brace in a text, so that no [{layer}] or [{suffix}] can start
    inside it. *)
Fixpoint no_brace (s : string) : bool :=
  match s with
  | EmptyString => true
  | String c s' => negb (Ascii.eqb c "{") && no_brace s'
  end.

(** The call into cuDNN, when it is made, comes back. *)
Definition flatten_never_fails `{Torch} : Prop :=
  forall ws stride in_size cudnn_mode hidden layers bfirst bidir,
    exists ptrs,
      _cudnn_rnn_flatten_weight ws stride in_size cudnn_mode hidden layers
                                bfirst bidir = Ok ptrs.

(** The names that the specification gives to the parameters of one layer
    and direction. *)
Definition spec_layer_names (with_biases : bool) (layer direction : Z) : list string :=
  List.app
    [spec_param_name "weight_ih" layer direction;
     spec_param_name "weight_hh" layer direction]
    (if with_biases
     then [spec_param_name "bias_ih" layer direction;
           spec_param_name "bias_hh" layer direction]
     else []).

Definition dropout_in_range (d : float) : bool :=
  PrimFloat.leb 0%float d && PrimFloat.leb d 1%float.


(** ** Vocabulary of the further statements *)

Definition empty_calls (l : list Event) : list (list Z) :=
  flat_map (fun ev => match ev with EvEmpty shape _ => [shape] | _ => [] end) l.

Definition uniform_calls (l : list Event) : list (Tensor * float * float) :=
  flat_map (fun ev => match ev with
                      | EvUniform w low high => [(w, low, high)]
                      | _ => []
                      end) l.

(** The flat weights are the registered parameters, name by name and
    tensor by tensor. *)
Definition in_sync (m : Module) : Prop :=
  _flat_weights_names m = map fst (parameters_ m) /\
  _flat_weights m = map snd (parameters_ m).

(** A tensor as [torch::empty] hands it out, with its storage at an address
    from [lo] up to [hi]. *)
Definition is_fresh_weight `{Torch} (lo hi : Z) (t : Tensor) : Prop :=
  exists shape p,
    t = Some (mkTensor shape default_dtype default_device p []) /\ lo <= p < hi.

(** The flat weight that [reset_flat_weights] finds under a name. *)
Definition flat_weight_of (d : list (string * Tensor)) (wn : string) : Tensor :=
  match lookup wn d with
  | Some t => t
  | None => None
  end.

Definition is_digit (c : ascii) : bool :=
  let n := nat_of_ascii c in (48 <=? n)%nat && (n <=? 57)%nat.

Fixpoint all_digits (s : string) : bool :=
  match s with
  | EmptyString => true
  | String c s' => is_digit c && all_digits s'
  end.

(** The four kinds of parameter. *)
Definition param_kinds : list string :=
  ["weight_ih"; "weight_hh"; "bias_ih"; "bias_hh"].

(** Padded input of the right rank and feature size, and what the batch
    size of it is. *)
Definition padded_batch (o : RNNOptionsBase) (i : TensorImpl) : option Z :=
  match t_sizes i with
  | [a; b; c] => if c =? input_size o then Some (if batch_first o then a else b) else None
  | _ => None
  end.

(** The state of zeros that a forward call allocates in [e]. *)
Definition zeros_of (e : Env) (i : TensorImpl) (mbs : Z) : Tensor :=
  let o := options (this e) in
  let shape := [mul64 (num_layers o) (spec_num_directions o); mbs; hidden_size o] in
  Some (mkTensor shape (t_dtype i) (t_device i) (next_ptr e)
                 (repeat 0 (Z.to_nat (numel shape)))).

Definition after_zeros (e : Env) (i : TensorImpl) (mbs : Z) : Env :=
  let o := options (this e) in
  let shape := [mul64 (num_layers o) (spec_num_directions o); mbs; hidden_size o] in
  mkEnv (this e) (next_ptr e + 1)
        (log e ++ [EvZeros shape (t_dtype i) (t_device i) (zeros_of e i mbs)]).

(** Arguments that passed [check_forward_args]: the rank and the feature
    size of the input, and the size of the state. *)
Definition validated (o : RNNOptionsBase) (input batch_sizes hx : Tensor) : Prop :=
  dim input = Ok (if defined batch_sizes then 2 else 3) /\
  size input (-1) = Ok (input_size o) /\
  exists mini_batch,
    spec_mini_batch o input batch_sizes = Ok mini_batch /\
    sizes hx = Ok [mul64 (num_layers o) (spec_num_directions o); mini_batch;
                   hidden_size o].

(** [batch_sizes[0]] can be read as one number. *)
Definition has_first_batch (batch_sizes : Tensor) : bool :=
  match batch_sizes with
  | Some b =>
      match t_sizes b with
      | d0 :: rest => (0 <? d0) && (numel rest =? 1)
      | [] => false
      end
  | None => false
  end.

(** Packed data of the right rank and feature size. *)
Definition packed_data_ok (o : RNNOptionsBase) (i : TensorImpl) : bool :=
  match t_sizes i with
  | [_; c] => c =? input_size o
  | _ => false
  end.

(** After a transfer that left the module in [e1], the flat weights of [e']
    are those registered in [e1]: same names, same shapes, position by
    position. *)
Definition refreshed (e1 e' : Env) : Prop :=
  _flat_weights_names (this e') = _flat_weights_names (this e1) /\
  registered (this e') = registered (this e1) /\
  List.length (_flat_weights (this e')) = List.length (_flat_weights_names (this e1)) /\
  map (option_map t_sizes) (_flat_weights (this e')) =
  map (fun wn => option_map t_sizes (flat_weight_of (parameters_ (this e1)) wn))
      (_flat_weights_names (this e1)).

Definition is_alloc (ev : Event) : bool :=
  match ev with EvEmpty _ _ => true | _ => false end.

(** From [e] to [e'] the registration loops went [k] times round: four
    allocations each time, the new parameters at the end of the dictionary
    under their names, every one a fresh tensor with storage of its own. *)
Definition constructs `{Torch} (e e' : Env) (k : nat) : Prop :=
  options (this e') = options (this e) /\
  is_training (this e') = is_training (this e) /\
  _flat_weights (this e') = _flat_weights (this e) /\
  next_ptr e' = next_ptr e + 4 * Z.of_nat k /\
  (exists new,
     parameters_ (this e') = (parameters_ (this e) ++ new)%list /\
     _flat_weights_names (this e') =
       (_flat_weights_names (this e) ++ map fst new)%list /\
     List.concat (_all_weights (this e')) =
       (List.concat (_all_weights (this e)) ++ map fst new)%list /\
     Forall (fun nt => is_fresh_weight (next_ptr e) (next_ptr e') (snd nt)) new /\
     NoDup (map (fun nt => data_ptr (snd nt)) new)) /\
  (exists evs,
     log e' = (log e ++ evs)%list /\
     forallb is_alloc evs = true /\
     List.length evs = (4 * k)%nat).

(** The width of the uniform distribution that [reset_parameters] draws
    from. *)
Definition stdv_of (o : RNNOptionsBase) : float :=
  PrimFloat.div 1%float (PrimFloat.sqrt (double_of_int64 (hidden_size o))).

(** How many parameters a layer and direction registers. *)
Definition params_per_direction (o : RNNOptionsBase) : Z :=
  if bias o then 4 else 2.

(** * Properties *)

Unset Implicit Arguments.

Ltac run_monad :=
  unfold bind, ret, lift, undef, get_this, set_this, emit, fresh_ptr, TORCH_CHECK in *;
  cbn [fst snd this next_ptr log] in *.

(** Case analysis on whatever the goal, or a hypothesis, matches on. *)
Ltac split_matches :=
  repeat match goal with
         | |- context [match ?x with _ => _ end] => destruct x
         end.

Ltac split_matches_in H :=
  repeat match type of H with
         | context [match ?x with _ => _ end] => destruct x
         end.

Lemma list_Z_eqb_spec : forall a b, list_Z_eqb a b = true <-> a = b.
Proof.
  induction a as [|x a IH]; destruct b as [|y b]; cbn; split; intro E;
    try discriminate; try reflexivity.
  - apply andb_true_iff in E. destruct E as [E1 E2].
    apply Z.eqb_eq in E1. apply IH in E2. congruence.
  - injection E as -> ->. rewrite Z.eqb_refl. cbn. now apply IH.
Qed.

Lemma mul64_exact : forall a b, in_int64 (a * b) -> mul64 a b = a * b.
Proof.
  unfold mul64, wrap64, in_int64. intros a b Hr.
  rewrite Z.mod_small by lia. lia.
Qed.

Section Validation.

Lemma check_input_frame : forall input bs e, snd (check_input input bs e) = e.
Proof.
  intros input bs e. unfold check_input. run_monad.
  destruct (dim input) as [d| |]; cbn; try reflexivity.
  destruct (d =? _); cbn; try reflexivity.
  destruct (size input (-1)) as [l| |]; cbn; reflexivity.
Qed.

Lemma check_input_no_undef : forall input bs e, fst (check_input input bs e) <> Undef.
Proof.
  intros input bs e. unfold check_input. run_monad.
  destruct input as [i|]; cbn; try discriminate.
  destruct (_ =? _); cbn; try discriminate.
  destruct (_ && _); cbn; try discriminate.
  destruct (_ =? _); discriminate.
Qed.

Lemma check_input_ok_iff : forall input bs e,
  fst (check_input input bs e) = Ok tt <->
  dim input = Ok (if defined bs then 2 else 3) /\
  size input (-1) = Ok (input_size (options (this e))).
Proof.
  intros input bs e. unfold check_input. run_monad.
  destruct (dim input) as [d| |]; cbn; try (split; [discriminate | intros [E _]; discriminate]).
  destruct (Z.eqb_spec d (if defined bs then 2 else 3)) as [Ed|Ed]; cbn.
  - destruct (size input (-1)) as [l| |]; cbn;
      try (split; [discriminate | intros [_ E]; discriminate]).
    destruct (Z.eqb_spec (input_size (options (this e))) l) as [El|El]; cbn.
    + split; [intros _; split; congruence | reflexivity].
    + split; [discriminate | intros [_ E]; congruence].
  - split; [discriminate | intros [E _]; congruence].
Qed.

(** C3.  [check_input] raises exactly when [input.dim()] is not the expected
    number of dimensions (2 with [batch_sizes] defined, 3 without) or
    [input.size(-1)] is not the configured [input_size]; when both agree it
    returns; and in every case it leaves the module and the rest of the
    state as they were. *)
Theorem C3_check_input_raises_iff : forall input batch_sizes e,
  let expected_input_dim := if defined batch_sizes then 2 else 3 in
  let r := check_input input batch_sizes e in
  (raises (fst r) <->
     dim input <> Ok expected_input_dim \/
     size input (-1) <> Ok (input_size (options (this e)))) /\
  (fst r = Ok tt <->
     dim input = Ok expected_input_dim /\
     size input (-1) = Ok (input_size (options (this e)))) /\
  snd r = e.
Proof.
  intros input bs e expected r. subst expected r.
  pose proof (check_input_ok_iff input bs e) as Hok.
  pose proof (check_input_no_undef input bs e) as Hnu.
  split; [|split]; [| exact Hok | apply check_input_frame].
  destruct (fst (check_input input bs e)) as [[]|msg|] eqn:E.
  - split.
    + intros [m Hm]. discriminate.
    + intros Hd. exfalso. destruct Hok as [Hok _]. specialize (Hok eq_refl).
      destruct Hd as [Hd|Hd]; apply Hd; apply Hok.
  - split.
    + intros _.
      destruct (dim input) as [d| |] eqn:Ed; try (left; discriminate).
      destruct (Z.eq_dec d (if defined bs then 2 else 3)) as [->|Hne];
        [| left; congruence].
      right. intro Hs. destruct Hok as [_ Hok].
      specialize (Hok (conj eq_refl Hs)). discriminate.
    + intros _. now exists msg.
  - now elim Hnu.
Qed.

End Validation.

Section HiddenSize.

Lemma get_expected_hidden_size_eq : forall input bs e,
  get_expected_hidden_size input bs e =
  (obind (spec_mini_batch (options (this e)) input bs)
         (fun mini_batch =>
            Ok (mul64 (num_layers (options (this e)))
                      (spec_num_directions (options (this e))),
                mini_batch, hidden_size (options (this e)))), e).
Proof.
  intros input bs e. unfold get_expected_hidden_size, spec_mini_batch. run_monad.
  destruct bs as [b|]; cbn [defined].
  - destruct (index0_item (Some b)); reflexivity.
  - destruct (batch_first _); [destruct (size input 0) | destruct (size input 1)];
      reflexivity.
Qed.

Lemma check_hidden_size_cases : forall hx expected msg e,
  snd (check_hidden_size hx expected msg e) = e /\
  (fst (check_hidden_size hx expected msg e) = Ok tt <->
     sizes hx = Ok (triple_sizes expected)) /\
  (raises (fst (check_hidden_size hx expected msg e)) <->
     sizes hx <> Ok (triple_sizes expected)).
Proof.
  intros hx [[e0 e1] e2] msg e. unfold check_hidden_size, triple_sizes. run_monad.
  destruct hx as [i|]; cbn.
  - destruct (list_Z_eqb (t_sizes i) [e0; e1; e2]) eqn:E; cbn.
    + apply list_Z_eqb_spec in E. rewrite E.
      repeat split; try reflexivity.
      * intros [m Hm]. discriminate.
      * intros Hd. now elim Hd.
    + assert (Hne : t_sizes i <> [e0; e1; e2]).
      { intro Heq. apply list_Z_eqb_spec in Heq. congruence. }
      repeat split; try discriminate.
      * intros Hs. congruence.
      * intros _ Hs. congruence.
      * intros _. eexists. reflexivity.
  - repeat split; try discriminate.
    intros _. eexists. reflexivity.
Qed.

Lemma get_expected_hidden_size_frame : forall input bs e,
  snd (get_expected_hidden_size input bs e) = e.
Proof. intros. now rewrite get_expected_hidden_size_eq. Qed.

Lemma check_forward_args_eq : forall input hidden bs e,
  check_forward_args input hidden bs e =
  (obind (fst (check_input input bs e)) (fun _ =>
   obind (fst (get_expected_hidden_size input bs e)) (fun expected =>
   fst (check_hidden_size hidden expected default_hidden_message e))), e).
Proof.
  intros input hidden bs e. unfold check_forward_args, bind.
  pose proof (check_input_frame input bs e) as Hf.
  destruct (check_input input bs e) as [[[]|m|] e1]; cbn [fst snd] in *;
    subst e1; cbn [obind]; try reflexivity.
  pose proof (get_expected_hidden_size_frame input bs e) as Hg.
  destruct (get_expected_hidden_size input bs e) as [[ex|m|] e1];
    cbn [fst snd] in *; subst e1; cbn [obind]; try reflexivity.
  pose proof (check_hidden_size_cases hidden ex default_hidden_message e) as [Hs _].
  destruct (check_hidden_size hidden ex default_hidden_message e);
    cbn [fst snd] in *. now subst.
Qed.

Lemma lstm_check_forward_args_eq : forall input hidden bs e,
  LSTMImpl.check_forward_args input hidden bs e =
  (obind (fst (check_input input bs e)) (fun _ =>
   obind (fst (get_expected_hidden_size input bs e)) (fun expected =>
   obind (fst (check_hidden_size (fst hidden) expected
                 "Expected hidden[0] size {1}, got {2}" e)) (fun _ =>
   fst (check_hidden_size (snd hidden) expected
          "Expected hidden[1] size {1}, got {2}" e)))), e).
Proof.
  intros input hidden bs e. unfold LSTMImpl.check_forward_args, bind.
  pose proof (check_input_frame input bs e) as Hf.
  destruct (check_input input bs e) as [[[]|m|] e1]; cbn [fst snd] in *;
    subst e1; cbn [obind]; try reflexivity.
  pose proof (get_expected_hidden_size_frame input bs e) as Hg.
  destruct (get_expected_hidden_size input bs e) as [[ex|m|] e1];
    cbn [fst snd] in *; subst e1; cbn [obind]; try reflexivity.
  pose proof (check_hidden_size_cases (fst hidden) ex
                "Expected hidden[0] size {1}, got {2}" e) as [Hs _].
  destruct (check_hidden_size (fst hidden) ex _ e) as [[[]|m|] e1];
    cbn [fst snd] in *; subst e1; cbn [obind]; try reflexivity.
  pose proof (check_hidden_size_cases (snd hidden) ex
                "Expected hidden[1] size {1}, got {2}" e) as [Hs' _].
  destruct (check_hidden_size (snd hidden) ex _ e); cbn [fst snd] in *. now subst.
Qed.

Lemma check_forward_args_frame : forall input hidden bs e,
  snd (check_forward_args input hidden bs e) = e.
Proof. intros. now rewrite check_forward_args_eq. Qed.

Lemma lstm_check_forward_args_frame : forall input hidden bs e,
  snd (LSTMImpl.check_forward_args input hidden bs e) = e.
Proof. intros. now rewrite lstm_check_forward_args_eq. Qed.

(** C4.  [get_expected_hidden_size] returns
    [(num_layers * num_directions, mini_batch, hidden_size)], where
    [mini_batch] is [batch_sizes[0]] when [batch_sizes] is defined and
    otherwise [input.size(0)] or [input.size(1)] by [batch_first];
    [check_hidden_size] raises exactly when the size of the given tensor is
    not that triple; and [check_forward_args] is [check_input] followed by
    the hidden-size check, on both tensors of the pair for LSTM. *)
Theorem C4_expected_hidden_size_and_checks : forall input hidden hidden2 batch_sizes e,
  let o := options (this e) in
  let num_directions := if bidirectional o then 2 else 1 in
  let mini_batch :=
    match batch_sizes with
    | Some _ => index0_item batch_sizes
    | None => if batch_first o then size input 0 else size input 1
    end in
  get_expected_hidden_size input batch_sizes e =
    (obind mini_batch (fun mb =>
       Ok (mul64 (num_layers o) num_directions, mb, hidden_size o)), e) /\
  (forall expected msg,
     (raises (fst (check_hidden_size hidden expected msg e)) <->
        sizes hidden <> Ok (triple_sizes expected)) /\
     (fst (check_hidden_size hidden expected msg e) = Ok tt <->
        sizes hidden = Ok (triple_sizes expected)) /\
     snd (check_hidden_size hidden expected msg e) = e) /\
  (check_forward_args input hidden batch_sizes e = (Ok tt, e) <->
     fst (check_input input batch_sizes e) = Ok tt /\
     exists expected,
       fst (get_expected_hidden_size input batch_sizes e) = Ok expected /\
       sizes hidden = Ok (triple_sizes expected)) /\
  (LSTMImpl.check_forward_args input (hidden, hidden2) batch_sizes e = (Ok tt, e) <->
     fst (check_input input batch_sizes e) = Ok tt /\
     exists expected,
       fst (get_expected_hidden_size input batch_sizes e) = Ok expected /\
       sizes hidden = Ok (triple_sizes expected) /\
       sizes hidden2 = Ok (triple_sizes expected)).
Proof.
  intros input hidden hidden2 bs e o num_directions mini_batch.
  split; [apply get_expected_hidden_size_eq|].
  split.
  { intros expected msg.
    destruct (check_hidden_size_cases hidden expected msg e) as (Hf & Hok & Hr).
    auto. }
  split.
  - rewrite check_forward_args_eq.
    destruct (fst (check_input input bs e)) as [[]|m|]; cbn [obind];
      try (split; [discriminate | intros [E _]; discriminate]).
    destruct (fst (get_expected_hidden_size input bs e)) as [ex|m|]; cbn [obind];
      try (split; [discriminate | intros [_ [x [E _]]]; discriminate]).
    destruct (check_hidden_size_cases hidden ex default_hidden_message e)
      as (_ & Hok & _).
    split.
    + intros E. split; [reflexivity|]. exists ex. split; [reflexivity|].
      apply Hok. congruence.
    + intros [_ [x [Ex Hs]]]. injection Ex as <-. apply Hok in Hs. now rewrite Hs.
  - rewrite lstm_check_forward_args_eq. cbn [fst snd].
    destruct (fst (check_input input bs e)) as [[]|m|]; cbn [obind];
      try (split; [discriminate | intros [E _]; discriminate]).
    destruct (fst (get_expected_hidden_size input bs e)) as [ex|m|]; cbn [obind];
      try (split; [discriminate | intros [_ [x [E _]]]; discriminate]).
    destruct (check_hidden_size_cases hidden ex
                "Expected hidden[0] size {1}, got {2}" e) as (_ & Hok & _).
    destruct (check_hidden_size_cases hidden2 ex
                "Expected hidden[1] size {1}, got {2}" e) as (_ & Hok2 & _).
    split.
    + intros E. split; [reflexivity|]. exists ex. split; [reflexivity|].
      destruct (fst (check_hidden_size hidden ex _ e)) as [[]|m|];
        cbn [obind] in E; try discriminate.
      split; [now apply Hok | apply Hok2; congruence].
    + intros [_ [x [Ex [Hs Hs2]]]]. injection Ex as <-.
      apply Hok in Hs. apply Hok2 in Hs2. rewrite Hs. cbn [obind]. now rewrite Hs2.
Qed.

End HiddenSize.

Section Permutation.
Context `{Torch}.

(** C7.  [permute_hidden] returns [hx] itself when the permutation is
    undefined and [hx.index_select(1, permutation)] otherwise; the LSTM
    overload returns the pair unchanged in the first case and selects both
    tensors of the pair, each by the same permutation, in the second. *)
Theorem C7_permute_hidden : forall (hx c : Tensor) (perm : TensorImpl),
  permute_hidden hx None = Ok hx /\
  permute_hidden hx (Some perm) = index_select hx 1 (Some perm) /\
  LSTMImpl.permute_hidden (hx, c) None = Ok (hx, c) /\
  LSTMImpl.permute_hidden (hx, c) (Some perm) =
    obind (index_select hx 1 (Some perm)) (fun h' =>
    obind (index_select c 1 (Some perm)) (fun c' => Ok (h', c'))).
Proof.
  intros hx c perm. repeat split.
Qed.

End Permutation.

Section Forward.
Context `{Torch}.

Lemma new_events_app : forall e e' evs,
  log e' = (log e ++ evs)%list -> new_events e e' = evs.
Proof.
  intros e e' evs E. unfold new_events. rewrite E.
  rewrite skipn_app, skipn_all, Nat.sub_diag. reflexivity.
Qed.

Lemma new_events_same : forall e e', log e' = log e -> new_events e e' = [].
Proof.
  intros e e' E. apply new_events_app. now rewrite app_nil_r.
Qed.


Lemma args_hx_dispatch_args : forall self input bs hx,
  args_hx (dispatch_args self input bs hx) = hx.
Proof. intros. unfold dispatch_args. now destruct (defined bs). Qed.

(** The zero tensor that [zero_state] allocates in environment [e]. *)
Lemma zero_state_run : forall (i : TensorImpl) mbs e,
  let o := options (this e) in
  let shape := [mul64 (num_layers o) (spec_num_directions o); mbs; hidden_size o] in
  let z := Some (mkTensor shape (t_dtype i) (t_device i) (next_ptr e)
                          (repeat 0 (Z.to_nat (numel shape)))) in
  zero_state (Some i) mbs e =
  (Ok z, mkEnv (this e) (next_ptr e + 1)
               (log e ++ [EvZeros shape (t_dtype i) (t_device i) z])).
Proof. intros. reflexivity. Qed.

Lemma zero_state_undefined_input : forall mbs e,
  zero_state None mbs e = (Raise "tensor does not have a device", e).
Proof. intros. reflexivity. Qed.

Lemma initial_hidden_this : forall input si mbs hx e,
  this (snd (initial_hidden input si mbs hx e)) = this e.
Proof.
  intros input si mbs hx e. unfold initial_hidden.
  destruct hx as [h|]; cbn [defined negb].
  - reflexivity.
  - destruct input as [i|]; reflexivity.
Qed.

Lemma lstm_initial_hidden_this : forall input si mbs hx e,
  this (snd (LSTMImpl.initial_hidden input si mbs hx e)) = this e.
Proof.
  intros input si mbs hx e. unfold LSTMImpl.initial_hidden.
  destruct hx as [h|].
  - reflexivity.
  - destruct input as [i|]; reflexivity.
Qed.

(** [RNNImplBase::forward_helper], step by step. *)
Lemma forward_helper_run : forall input bs si mbs hx e,
  forward_helper input bs si mbs hx e =
  match initial_hidden input si mbs hx e with
  | (Ok hx', e1) =>
      match fst (check_forward_args input hx' bs e1) with
      | Ok _ =>
          match get_rnn_impl (mode (options (this e))) with
          | Ok (Some f) =>
              let a := dispatch_args (this e) input bs [hx'] in
              (match run_impl f a with
               | Ok _ => Undef
               | Raise m => Raise m
               | Undef => Undef
               end,
               mkEnv (this e1) (next_ptr e1) (log e1 ++ [EvKernel (kernel_of f) a]))
          | Ok None => (Raise "bad_function_call", e1)
          | Raise m => (Raise m, e1)
          | Undef => (Undef, e1)
          end
      | Raise m => (Raise m, e1)
      | Undef => (Undef, e1)
      end
  | (Raise m, e1) => (Raise m, e1)
  | (Undef, e1) => (Undef, e1)
  end.
Proof.
  intros input bs si mbs hx e. unfold forward_helper.
  unfold bind at 1. unfold get_this at 1. unfold bind at 1.
  destruct (initial_hidden input si mbs hx e) as [[hx'| |] e1]; try reflexivity.
  unfold bind at 1. rewrite check_forward_args_eq. cbn [fst].
  destruct (obind _ _) as [[]| |]; try reflexivity.
  unfold bind at 1, lift at 1.
  destruct (get_rnn_impl (mode (options (this e)))) as [[f|]| |]; try reflexivity.
  unfold dispatch_args, call_impl. run_monad.
  destruct (defined bs); cbn [negb]; destruct (run_impl f _); reflexivity.
Qed.

Lemma gru_forward_helper_run : forall input bs si mbs hx e,
  GRUImpl.forward_helper input bs si mbs hx e =
  match initial_hidden input si mbs hx e with
  | (Ok hx', e1) =>
      match fst (check_forward_args input hx' bs e1) with
      | Ok _ =>
          let a := dispatch_args (this e) input bs [hx'] in
          (gru a, mkEnv (this e1) (next_ptr e1) (log e1 ++ [EvKernel Kgru a]))
      | Raise m => (Raise m, e1)
      | Undef => (Undef, e1)
      end
  | (Raise m, e1) => (Raise m, e1)
  | (Undef, e1) => (Undef, e1)
  end.
Proof.
  intros input bs si mbs hx e. unfold GRUImpl.forward_helper.
  unfold bind at 1. unfold get_this at 1. unfold bind at 1.
  destruct (initial_hidden input si mbs hx e) as [[hx'| |] e1]; try reflexivity.
  unfold bind at 1. rewrite check_forward_args_eq. cbn [fst].
  destruct (obind _ _) as [[]| |]; try reflexivity.
  unfold dispatch_args, torch_gru. run_monad.
  destruct (defined bs); cbn [negb]; destruct (gru _) as [[o h]| |]; reflexivity.
Qed.

Lemma lstm_forward_helper_run : forall input bs si mbs hx_opt e,
  LSTMImpl.forward_helper input bs si mbs hx_opt e =
  match LSTMImpl.initial_hidden input si mbs hx_opt e with
  | (Ok hx', e1) =>
      match fst (LSTMImpl.check_forward_args input hx' bs e1) with
      | Ok _ =>
          let a := dispatch_args (this e) input bs [fst hx'; snd hx'] in
          (obind (lstm a) (fun r => Ok (fst (fst r), (snd (fst r), snd r))),
           mkEnv (this e1) (next_ptr e1) (log e1 ++ [EvKernel Klstm a]))
      | Raise m => (Raise m, e1)
      | Undef => (Undef, e1)
      end
  | (Raise m, e1) => (Raise m, e1)
  | (Undef, e1) => (Undef, e1)
  end.
Proof.
  intros input bs si mbs hx e. unfold LSTMImpl.forward_helper.
  unfold bind at 1. unfold get_this at 1. unfold bind at 1.
  destruct (LSTMImpl.initial_hidden input si mbs hx e) as [[hx'| |] e1];
    try reflexivity.
  unfold bind at 1. rewrite lstm_check_forward_args_eq. cbn [fst].
  destruct (obind _ _) as [[]| |]; try reflexivity.
  unfold dispatch_args, torch_lstm. run_monad.
  destruct (defined bs); cbn [negb]; destruct (lstm _) as [[[o h] c]| |]; reflexivity.
Qed.

End Forward.

Section Dispatch.
Context `{Torch}.

Lemma kernel_calls_app : forall l1 l2,
  kernel_calls (l1 ++ l2) = (kernel_calls l1 ++ kernel_calls l2)%list.
Proof. intros. apply flat_map_app. Qed.

Lemma zeros_calls_app : forall l1 l2,
  zeros_calls (l1 ++ l2) = (zeros_calls l1 ++ zeros_calls l2)%list.
Proof. intros. apply flat_map_app. Qed.

Lemma initial_hidden_log : forall input si mbs hx e,
  log (snd (initial_hidden input si mbs hx e)) =
  (log e ++ initial_events input (defined hx) mbs e)%list.
Proof.
  intros input si mbs hx e. unfold initial_hidden, initial_events.
  destruct hx as [h|]; cbn [defined negb].
  - cbn. now rewrite app_nil_r.
  - destruct input as [i|]; cbn; [reflexivity | now rewrite app_nil_r].
Qed.

Lemma lstm_initial_hidden_log : forall input si mbs (hx : option (Tensor * Tensor)) e,
  log (snd (LSTMImpl.initial_hidden input si mbs hx e)) =
  (log e ++ initial_events input (has_value hx) mbs e)%list.
Proof.
  intros input si mbs hx e. unfold LSTMImpl.initial_hidden, initial_events.
  destruct hx as [h|].
  - cbn. now rewrite app_nil_r.
  - destruct input as [i|]; cbn; [reflexivity | now rewrite app_nil_r].
Qed.

Lemma kernel_calls_initial_events : forall input given mbs e,
  kernel_calls (initial_events input given mbs e) = [].
Proof. intros [i|] [|] mbs e; reflexivity. Qed.

(** The events of one run of each [forward_helper]. *)
Lemma forward_helper_events : forall input bs si mbs hx e,
  new_events e (snd (forward_helper input bs si mbs hx e)) =
  (initial_events input (defined hx) mbs e ++
   match initial_hidden input si mbs hx e with
   | (Ok hx', e1) =>
       match fst (check_forward_args input hx' bs e1),
             get_rnn_impl (mode (options (this e))) with
       | Ok _, Ok (Some f) =>
           [EvKernel (kernel_of f) (dispatch_args (this e) input bs [hx'])]
       | _, _ => []
       end
   | _ => []
   end)%list.
Proof.
  intros input bs si mbs hx e. apply new_events_app.
  rewrite forward_helper_run.
  pose proof (initial_hidden_log input si mbs hx e) as Hl.
  destruct (initial_hidden input si mbs hx e) as [[hx'| |] e1]; cbn [snd] in Hl;
    try (cbn [snd]; now rewrite Hl, app_nil_r).
  destruct (fst (check_forward_args input hx' bs e1)) as [[]| |];
    try (cbn [snd]; now rewrite Hl, app_nil_r).
  destruct (get_rnn_impl (mode (options (this e)))) as [[f|]| |];
    try (cbn [snd]; now rewrite Hl, app_nil_r).
  cbn [snd log]. now rewrite Hl, app_assoc.
Qed.

Lemma gru_forward_helper_events : forall input bs si mbs hx e,
  new_events e (snd (GRUImpl.forward_helper input bs si mbs hx e)) =
  (initial_events input (defined hx) mbs e ++
   match initial_hidden input si mbs hx e with
   | (Ok hx', e1) =>
       match fst (check_forward_args input hx' bs e1) with
       | Ok _ => [EvKernel Kgru (dispatch_args (this e) input bs [hx'])]
       | _ => []
       end
   | _ => []
   end)%list.
Proof.
  intros input bs si mbs hx e. apply new_events_app.
  rewrite gru_forward_helper_run.
  pose proof (initial_hidden_log input si mbs hx e) as Hl.
  destruct (initial_hidden input si mbs hx e) as [[hx'| |] e1]; cbn [snd] in Hl;
    try (cbn [snd]; now rewrite Hl, app_nil_r).
  destruct (fst (check_forward_args input hx' bs e1)) as [[]| |];
    try (cbn [snd]; now rewrite Hl, app_nil_r).
  cbn [snd log]. now rewrite Hl, app_assoc.
Qed.

Lemma lstm_forward_helper_events : forall input bs si mbs hx_opt e,
  new_events e (snd (LSTMImpl.forward_helper input bs si mbs hx_opt e)) =
  (initial_events input (has_value hx_opt) mbs e ++
   match LSTMImpl.initial_hidden input si mbs hx_opt e with
   | (Ok hx', e1) =>
       match fst (LSTMImpl.check_forward_args input hx' bs e1) with
       | Ok _ =>
           [EvKernel Klstm (dispatch_args (this e) input bs [fst hx'; snd hx'])]
       | _ => []
       end
   | _ => []
   end)%list.
Proof.
  intros input bs si mbs hx e. apply new_events_app.
  rewrite lstm_forward_helper_run.
  pose proof (lstm_initial_hidden_log input si mbs hx e) as Hl.
  destruct (LSTMImpl.initial_hidden input si mbs hx e) as [[hx'| |] e1];
    cbn [snd] in Hl; try (cbn [snd]; now rewrite Hl, app_nil_r).
  destruct (fst (LSTMImpl.check_forward_args input hx' bs e1)) as [[]| |];
    try (cbn [snd]; now rewrite Hl, app_nil_r).
  cbn [snd log]. now rewrite Hl, app_assoc.
Qed.



End Dispatch.

Section InitialState.
Context `{Torch}.

Lemma zeros_calls_initial_events : forall (i : TensorImpl) given mbs e,
  zeros_calls (initial_events (Some i) given mbs e) =
  if given then []
  else
    let o := options (this e) in
    let shape := [mul64 (num_layers o) (spec_num_directions o); mbs; hidden_size o] in
    [Some (mkTensor shape (t_dtype i) (t_device i) (next_ptr e)
                    (repeat 0 (Z.to_nat (numel shape))))].
Proof. intros i [|] mbs e; reflexivity. Qed.

(** C9.  With no initial state ([hx] undefined, or the optional empty),
    [forward_helper] allocates one tensor of zeros of shape
    [[num_layers * num_directions, max_batch_size, hidden_size]] with the
    dtype and device of the input and takes it as the state, twice over for
    the [(h0, c0)] of LSTM; with an initial state it allocates no zeros and
    takes the given state permuted by [sorted_indices].  The state so
    obtained is the one every kernel call receives. *)
Theorem C9_initial_hidden_state :
  forall (i : TensorImpl) batch_sizes sorted_indices max_batch_size
         (h : TensorImpl) (hc : Tensor * Tensor) e,
  let input := Some i in
  let o := options (this e) in
  let num_directions := if bidirectional o then 2 else 1 in
  let shape := [mul64 (num_layers o) num_directions; max_batch_size; hidden_size o] in
  let z := Some (mkTensor shape (t_dtype i) (t_device i) (next_ptr e)
                          (repeat 0 (Z.to_nat (numel shape)))) in
  let e_z := mkEnv (this e) (next_ptr e + 1)
                   (log e ++ [EvZeros shape (t_dtype i) (t_device i) z]) in
  (initial_hidden input sorted_indices max_batch_size None e = (Ok z, e_z) /\
   LSTMImpl.initial_hidden input sorted_indices max_batch_size None e
     = (Ok (z, z), e_z) /\
   initial_hidden input sorted_indices max_batch_size (Some h) e
     = (permute_hidden (Some h) sorted_indices, e) /\
   LSTMImpl.initial_hidden input sorted_indices max_batch_size (Some hc) e
     = (LSTMImpl.permute_hidden hc sorted_indices, e)) /\
  (forall hx,
     let e1 := snd (forward_helper input batch_sizes sorted_indices max_batch_size hx e) in
     let e2 := snd (GRUImpl.forward_helper input batch_sizes sorted_indices
                      max_batch_size hx e) in
     zeros_calls (new_events e e1) = (if defined hx then [] else [z]) /\
     zeros_calls (new_events e e2) = (if defined hx then [] else [z]) /\
     forall k a,
       In (k, a) (kernel_calls (new_events e e1)) \/
       In (k, a) (kernel_calls (new_events e e2)) ->
       if defined hx
       then exists hx', permute_hidden hx sorted_indices = Ok hx' /\ args_hx a = [hx']
       else args_hx a = [z]) /\
  (forall hx_opt,
     let e1 := snd (LSTMImpl.forward_helper input batch_sizes sorted_indices
                      max_batch_size hx_opt e) in
     zeros_calls (new_events e e1) = (if has_value hx_opt then [] else [z]) /\
     forall k a,
       In (k, a) (kernel_calls (new_events e e1)) ->
       match hx_opt with
       | Some hx =>
           exists h' c', LSTMImpl.permute_hidden hx sorted_indices = Ok (h', c') /\
                         args_hx a = [h'; c']
       | None => args_hx a = [z; z]
       end).
Proof.
  intros i bs si mbs h hc e input o num_directions shape z e_z.
  split; [repeat split|].
  split.
  - intros hx e1 e2. subst e1 e2.
    rewrite forward_helper_events, gru_forward_helper_events.
    rewrite !zeros_calls_app, !kernel_calls_app, !kernel_calls_initial_events.
    unfold input. rewrite !zeros_calls_initial_events. cbn [app].
    assert (Ei : initial_hidden (Some i) si mbs hx e =
                 if defined hx then (permute_hidden hx si, e) else (Ok z, e_z)).
    { destruct hx; reflexivity. }
    rewrite Ei. clear Ei.
    destruct hx as [hx|]; cbn [defined].
    + destruct (permute_hidden (Some hx) si) as [hx'| |].
      * split; [|split]; [split_matches; reflexivity ..|].
        intros k a HIn. exists hx'. split; [reflexivity|].
        split_matches_in HIn; cbn in HIn; destruct HIn as [HIn|HIn];
          try contradiction; destruct HIn as [E|[]]; injection E as <- <-;
          apply args_hx_dispatch_args.
      * repeat split; try reflexivity. intros k a [[]|[]].
      * repeat split; try reflexivity. intros k a [[]|[]].
    + split; [|split]; [split_matches; reflexivity ..|].
      intros k a HIn.
      split_matches_in HIn; cbn in HIn; destruct HIn as [HIn|HIn];
        try contradiction; destruct HIn as [E|[]]; injection E as <- <-;
        apply args_hx_dispatch_args.
  - intros hx_opt e1. subst e1.
    rewrite lstm_forward_helper_events.
    rewrite !zeros_calls_app, !kernel_calls_app, !kernel_calls_initial_events.
    unfold input. rewrite !zeros_calls_initial_events. cbn [app].
    assert (Ei : LSTMImpl.initial_hidden (Some i) si mbs hx_opt e =
                 match hx_opt with
                 | Some hx => (LSTMImpl.permute_hidden hx si, e)
                 | None => (Ok (z, z), e_z)
                 end).
    { destruct hx_opt; reflexivity. }
    rewrite Ei. clear Ei.
    destruct hx_opt as [hx|]; cbn [has_value].
    + destruct (LSTMImpl.permute_hidden hx si) as [[h' c']| |].
      * split; [split_matches; reflexivity|].
        intros k a HIn. exists h', c'. split; [reflexivity|].
        split_matches_in HIn; cbn in HIn; try contradiction.
        destruct HIn as [E|[]]. injection E as <- <-.
        apply args_hx_dispatch_args.
      * split; [reflexivity | intros k a []].
      * split; [reflexivity | intros k a []].
    + split; [split_matches; reflexivity|].
      intros k a HIn.
      split_matches_in HIn; cbn in HIn; try contradiction.
      destruct HIn as [E|[]]. injection E as <- <-.
      apply args_hx_dispatch_args.
Qed.

End InitialState.

Section PackedForward.
Context `{Torch}.

Lemma forward_helper_never_returns : forall input bs si mbs hx e r,
  fst (forward_helper input bs si mbs hx e) <> Ok r.
Proof.
  intros input bs si mbs hx e r. rewrite forward_helper_run. cbv zeta.
  split_matches; cbn [fst]; discriminate.
Qed.

Lemma forward_packed_never_returns : forall packed_input hx e r,
  fst (forward_packed packed_input hx e) <> Ok r.
Proof.
  intros p hx e r. unfold forward_packed, bind, lift.
  destruct (index0_item (ps_batch_sizes p)) as [mbs| |]; try discriminate.
  pose proof (forward_helper_never_returns (ps_data p) (ps_batch_sizes p)
                (ps_sorted_indices p) mbs hx e) as Hn.
  destruct (forward_helper _ _ _ _ _ e) as [[x| |] e1]; cbn [fst] in *;
    try discriminate.
  now elim (Hn x).
Qed.

Lemma forward_never_returns : forall input hx e r,
  fst (forward input hx e) <> Ok r.
Proof.
  intros input hx e r. unfold forward, bind, lift, get_this.
  destruct (if batch_first _ then _ else _) as [mbs| |]; try discriminate.
  pose proof (forward_helper_never_returns input None None mbs hx e) as Hn.
  destruct (forward_helper _ _ _ _ _ e) as [[x| |] e1]; cbn [fst] in *;
    try discriminate.
  now elim (Hn x).
Qed.

(** The siblings do return: what [GRUImpl] and [LSTMImpl] give back for a
    packed input. *)
Lemma gru_forward_packed_result : forall packed_input hx e out h e',
  GRUImpl.forward_packed packed_input hx e = (Ok (out, h), e') ->
  ps_batch_sizes out = ps_batch_sizes packed_input /\
  ps_sorted_indices out = ps_sorted_indices packed_input /\
  ps_unsorted_indices out = ps_unsorted_indices packed_input /\
  exists max_batch_size hidden,
    index0_item (ps_batch_sizes packed_input) = Ok max_batch_size /\
    GRUImpl.forward_helper (ps_data packed_input) (ps_batch_sizes packed_input)
      (ps_sorted_indices packed_input) max_batch_size hx e
      = (Ok (ps_data out, hidden), e') /\
    permute_hidden hidden (ps_unsorted_indices packed_input) = Ok h.
Proof.
  intros p hx e out h e'. unfold GRUImpl.forward_packed, bind, lift, ret.
  destruct (index0_item (ps_batch_sizes p)) as [mbs| |]; try discriminate.
  destruct (GRUImpl.forward_helper _ _ _ _ _ e) as [[[output hidden]| |] e1] eqn:Ef;
    try discriminate.
  destruct (permute_hidden hidden (ps_unsorted_indices p)) as [h1| |] eqn:Ep;
    try discriminate.
  intros E. injection E as <- <- <-. cbn [ps_batch_sizes ps_sorted_indices
    ps_unsorted_indices ps_data].
  do 3 (split; [reflexivity|]).
  exists mbs, hidden. auto.
Qed.

Lemma lstm_forward_packed_result : forall packed_input hx_opt e out h e',
  LSTMImpl.forward_packed packed_input hx_opt e = (Ok (out, h), e') ->
  ps_batch_sizes out = ps_batch_sizes packed_input /\
  ps_sorted_indices out = ps_sorted_indices packed_input /\
  ps_unsorted_indices out = ps_unsorted_indices packed_input /\
  exists max_batch_size hidden,
    index0_item (ps_batch_sizes packed_input) = Ok max_batch_size /\
    LSTMImpl.forward_helper (ps_data packed_input) (ps_batch_sizes packed_input)
      (ps_sorted_indices packed_input) max_batch_size hx_opt e
      = (Ok (ps_data out, hidden), e') /\
    LSTMImpl.permute_hidden hidden (ps_unsorted_indices packed_input) = Ok h.
Proof.
  intros p hx e out h e'. unfold LSTMImpl.forward_packed, bind, lift, ret.
  destruct (index0_item (ps_batch_sizes p)) as [mbs| |]; try discriminate.
  destruct (LSTMImpl.forward_helper _ _ _ _ _ e) as [[[output hidden]| |] e1] eqn:Ef;
    try discriminate.
  destruct (LSTMImpl.permute_hidden hidden (ps_unsorted_indices p)) as [h1| |] eqn:Ep;
    try discriminate.
  intros E. injection E as <- <- <-. cbn [ps_batch_sizes ps_sorted_indices
    ps_unsorted_indices ps_data].
  do 3 (split; [reflexivity|]).
  exists mbs, hidden. auto.
Qed.

End PackedForward.

Example gru_forward_packed_returns :
  is_ok (fst (@GRUImpl.forward_packed toy example_packed example_state
                (env0 (example_module kGRU)))) = true.
Proof. vm_compute. reflexivity. Qed.

Example lstm_forward_packed_returns :
  is_ok (fst (@LSTMImpl.forward_packed toy example_packed
                (Some (example_state, example_state))
                (env0 (example_module kLSTM)))) = true.
Proof. vm_compute. reflexivity. Qed.

(** C8.  On the packed input of the example, a constructed [RNN_TANH] module
    takes [batch_sizes[0] = 4] as the batch size, permutes the given state
    by [sorted_indices] and calls the packed overload of [rnn_tanh] with it;
    then [RNNImplBase::forward_helper] ends without a [return], so the
    packed [forward] has no output and no final state to hand back.  No run
    of it, on any input and any framework, returns a value. *)
Theorem C8_rnn_forward_packed_returns_nothing :
  fst (@forward_packed toy example_packed example_state
         (env0 (example_module kRNN_TANH))) = Undef /\
  kernel_calls (log (snd (@forward_packed toy example_packed example_state
                            (env0 (example_module kRNN_TANH))))) =
    [(Krnn_tanh,
      packed_args (example_module kRNN_TANH) (ps_data example_packed)
        (ps_batch_sizes example_packed)
        [Some (mkTensor [4; 4; 5] kFloat CPU 1104 [])])] /\
  @index_select toy example_state 1 (ps_sorted_indices example_packed) =
    Ok (Some (mkTensor [4; 4; 5] kFloat CPU 1104 [])) /\
  (forall (T : Torch) packed_input hx e r,
     fst (@forward_packed T packed_input hx e) <> Ok r).
Proof.
  split; [vm_compute; reflexivity|].
  split; [vm_compute; reflexivity|].
  split; [vm_compute; reflexivity|].
  intros T p hx e r. apply forward_packed_never_returns.
Qed.

Section Flatten.
Context `{Torch}.

Lemma ScalarType_eqb_spec : forall a b, ScalarType_eqb a b = true <-> a = b.
Proof. intros [] []; cbn; split; intro E; try discriminate; reflexivity. Qed.

Lemma nodup_length_le : forall l : list Z,
  (List.length (nodup Z.eq_dec l) <= List.length l)%nat.
Proof.
  induction l as [|x l IH]; cbn; [lia|].
  destruct (in_dec Z.eq_dec x l); cbn; lia.
Qed.

Lemma nodup_length_NoDup : forall l : list Z,
  List.length (nodup Z.eq_dec l) = List.length l <-> NoDup l.
Proof.
  intros l. split.
  - induction l as [|x l IH]; cbn; [constructor|].
    destruct (in_dec Z.eq_dec x l) as [Hin|Hnin]; cbn; intros E.
    + pose proof (nodup_length_le l). lia.
    + constructor; [exact Hnin | apply IH; lia].
  - intros Hnd. now rewrite nodup_fixed_point.
Qed.

Lemma unacceptable_none : forall (dt : ScalarType) fws,
  existsb (fun fw => negb (ScalarType_eqb (dtype fw) dt)
                     || negb (is_cuda fw)
                     || negb (cudnn_is_acceptable fw)) fws = false <->
  forall fw, In fw fws ->
    dtype fw = dt /\ is_cuda fw = true /\ cudnn_is_acceptable fw = true.
Proof.
  intros dt fws. induction fws as [|w fws IH]; cbn.
  - split; [intros _ fw [] | reflexivity].
  - rewrite orb_false_iff, IH, !orb_false_iff, !negb_false_iff, ScalarType_eqb_spec.
    split.
    + intros [[[E1 E2] E3] Hall] fw [<-|Hin]; auto.
    + intros Hall. split; [|intros fw Hin; apply Hall; now right].
      destruct (Hall w (or_introl eq_refl)) as (E1 & E2 & E3). auto.
Qed.

(** Either all the conditions hold or [flatten_parameters] returns at once. *)
Lemma flatten_parameters_decides : forall e,
  flatten_conditions (this e) \/ flatten_parameters e = (Ok tt, e).
Proof.
  intros e. unfold flatten_parameters, flatten_conditions. run_monad.
  destruct (Nat.eqb_spec (List.length (_flat_weights (this e)))
                         (List.length (_flat_weights_names (this e)))) as [El|El];
    cbn [negb]; [|now right].
  destruct (_flat_weights (this e)) as [|first_fw rest] eqn:Efw.
  { left. split; [exact El|]. split; [intros fw []|]. split; [intros fw []|].
    constructor. }
  destruct (existsb _ (first_fw :: rest)) eqn:Ex; [now right|].
  pose proof (proj1 (unacceptable_none _ _) Ex) as Hall. clear Ex. rename Hall into Ex.
  destruct (Nat.eqb_spec
              (List.length (nodup Z.eq_dec (map data_ptr (first_fw :: rest))))
              (List.length (first_fw :: rest))) as [En|En];
    cbn [negb]; [|now right].
  left. split; [exact El|]. split; [|split].
  - intros fw Hin. now apply Ex.
  - intros fw Hin. now apply Ex.
  - apply nodup_length_NoDup. now rewrite En, length_map.
Qed.

(** With all the conditions on a weight list that is not empty, the call
    is made. *)
Lemma flatten_parameters_calls : forall e first_fw rest cudnn_mode,
  flatten_conditions (this e) ->
  _flat_weights (this e) = first_fw :: rest ->
  get_cudnn_mode_for_rnn (mode (options (this e))) = Ok cudnn_mode ->
  let o := options (this e) in
  new_events e (snd (flatten_parameters e)) =
  [EvFlatten (_flat_weights (this e)) (if bias o then 4 else 2) (input_size o)
             cudnn_mode (hidden_size o) (num_layers o) (batch_first o)
             (bidirectional o)].
Proof.
  intros e first_fw rest cm (El & Hdt & Hok & Hnd) Efw Ecm o.
  apply new_events_app.
  unfold flatten_parameters. run_monad.
  rewrite El, Nat.eqb_refl. cbn [negb].
  rewrite Efw in *.
  assert (Ex : existsb (fun fw => negb (ScalarType_eqb (dtype fw) (dtype first_fw))
                                  || negb (is_cuda fw)
                                  || negb (cudnn_is_acceptable fw))
                       (first_fw :: rest) = false).
  { apply unacceptable_none. intros fw Hin.
    destruct (Hok fw Hin). split; [now apply Hdt | auto]. }
  rewrite Ex.
  assert (En : List.length (nodup Z.eq_dec (map data_ptr (first_fw :: rest)))
               = List.length (first_fw :: rest)).
  { apply nodup_length_NoDup in Hnd. now rewrite Hnd, length_map. }
  rewrite (eq_trans En El), Nat.eqb_refl. cbn [negb].
  rewrite Ecm. fold o.
  destruct (_cudnn_rnn_flatten_weight _ _ _ _ _ _ _ _); reflexivity.
Qed.

(** C5.  [flatten_parameters] calls [_cudnn_rnn_flatten_weight] only when
    [_flat_weights] is as long as [_flat_weights_names], every flat weight
    has the dtype of the first, every flat weight is a CUDA tensor that
    cuDNN accepts, and the data pointers are pairwise distinct; when one of
    these fails it returns at once and changes nothing.  When they all hold
    for a list that is not empty and the mode has a cuDNN code, the call is
    made, on the flat weights and the configured sizes. *)
Theorem C5_flatten_parameters_guard : forall e,
  (flatten_calls (new_events e (snd (flatten_parameters e))) <> [] ->
   flatten_conditions (this e)) /\
  (~ flatten_conditions (this e) -> flatten_parameters e = (Ok tt, e)) /\
  (forall cudnn_mode,
     flatten_conditions (this e) ->
     _flat_weights (this e) <> [] ->
     get_cudnn_mode_for_rnn (mode (options (this e))) = Ok cudnn_mode ->
     let o := options (this e) in
     new_events e (snd (flatten_parameters e)) =
     [EvFlatten (_flat_weights (this e)) (if bias o then 4 else 2) (input_size o)
                cudnn_mode (hidden_size o) (num_layers o) (batch_first o)
                (bidirectional o)]).
Proof.
  intros e. split; [|split].
  - intros Hcall.
    destruct (flatten_parameters_decides e) as [Hc|Hr]; [exact Hc|].
    exfalso. apply Hcall. rewrite Hr. cbn [snd].
    now rewrite new_events_same.
  - intros Hn. destruct (flatten_parameters_decides e) as [Hc|Hr];
      [contradiction | exact Hr].
  - intros cm Hc Hne Ecm.
    destruct (_flat_weights (this e)) as [|first_fw rest] eqn:Efw;
      [now elim Hne|].
    rewrite <- Efw. now apply flatten_parameters_calls with first_fw rest.
Qed.

End Flatten.

Section Names.

Lemma append_empty_r : forall s : string, s ++ "" = s.
Proof. induction s as [|c s IH]; cbn; [reflexivity | now rewrite IH]. Qed.

Lemma append_assoc : forall a b c : string, (a ++ b) ++ c = a ++ b ++ c.
Proof. induction a as [|x a IH]; intros; cbn; [reflexivity | now rewrite IH]. Qed.

(** Text without a brace is copied as it is. *)
Lemma replace_from_no_brace : forall x pat rep rest,
  no_brace x = true ->
  replace_from (String "{" pat) rep 0 (x ++ rest) =
  x ++ replace_from (String "{" pat) rep 0 rest.
Proof.
  induction x as [|c x IH]; intros pat rep rest Hx; [reflexivity|].
  cbn [no_brace] in Hx. apply andb_true_iff in Hx. destruct Hx as [Hc Hx].
  apply negb_true_iff, Ascii.eqb_neq in Hc.
  cbn [append replace_from String.prefix].
  destruct (ascii_dec "{" c) as [E|_]; [now elim Hc|].
  now rewrite IH.
Qed.

Lemma no_brace_uint : forall d, no_brace (NilEmpty.string_of_uint d) = true.
Proof. induction d; cbn; auto. Qed.

Lemma no_brace_to_string : forall z, no_brace (to_string z) = true.
Proof.
  intros z. unfold to_string.
  destruct z as [|p|p]; cbn [Z.to_int NilZero.string_of_int]; try reflexivity.
  - unfold NilZero.string_of_uint.
    destruct (Pos.to_uint p) eqn:E; try reflexivity; rewrite <- E;
      apply no_brace_uint.
  - unfold NilZero.string_of_uint. cbn [no_brace]. 
    destruct (Pos.to_uint p) eqn:E; try reflexivity; rewrite <- E;
      apply no_brace_uint.
Qed.

Lemma replace_layer_here : forall rep,
  replace_from "{layer}" rep 0 "{layer}{suffix}" = rep ++ "{suffix}".
Proof. reflexivity. Qed.

Lemma replace_suffix_here : forall rep,
  replace_from "{suffix}" rep 0 "{suffix}" = rep.
Proof. intros rep. cbn. apply append_empty_r. Qed.

(** A template [pre{layer}{suffix}] is filled in as [pre], the layer
    number and the suffix, one after the other. *)
Lemma fill_template_eq : forall pre layer suffix,
  no_brace pre = true ->
  fill_template layer suffix (pre ++ "{layer}{suffix}") =
  pre ++ to_string layer ++ suffix.
Proof.
  intros pre layer suffix Hpre. unfold fill_template, regex_replace.
  rewrite (replace_from_no_brace pre "layer}" _ _ Hpre), replace_layer_here.
  rewrite (replace_from_no_brace pre "suffix}" _ _ Hpre).
  rewrite (replace_from_no_brace (to_string layer) "suffix}" _ _
             (no_brace_to_string layer)).
  now rewrite replace_suffix_here.
Qed.

Lemma direction_suffix_eq : forall direction,
  direction_suffix direction = if direction =? 1 then "_reverse" else "".
Proof. reflexivity. Qed.

Lemma layer_names_eq : forall layer direction with_biases,
  map (fill_template layer (direction_suffix direction))
      (param_name_templates with_biases) =
  ([spec_param_name "weight_ih" layer direction;
    spec_param_name "weight_hh" layer direction] ++
   (if with_biases
    then [spec_param_name "bias_ih" layer direction;
          spec_param_name "bias_hh" layer direction]
    else []))%list.
Proof.
  intros layer direction b. unfold param_name_templates, spec_param_name.
  rewrite map_app. fold (direction_suffix direction).
  change "weight_ih_l{layer}{suffix}" with ("weight_ih_l" ++ "{layer}{suffix}").
  change "weight_hh_l{layer}{suffix}" with ("weight_hh_l" ++ "{layer}{suffix}").
  change "bias_ih_l{layer}{suffix}" with ("bias_ih_l" ++ "{layer}{suffix}").
  change "bias_hh_l{layer}{suffix}" with ("bias_hh_l" ++ "{layer}{suffix}").
  destruct b; cbn [map app]; rewrite !fill_template_eq by reflexivity;
    reflexivity.
Qed.

End Names.

Section ResetRun.
Context `{Torch}.

Lemma registers_refl : forall e, registers e e [].
Proof.
  intros e. unfold registers, somes. cbn [map]. rewrite !app_nil_r.
  repeat split. exists []. now rewrite app_nil_r.
Qed.

Lemma warnings_app : forall l1 l2,
  warnings (l1 ++ l2) = (warnings l1 ++ warnings l2)%list.
Proof. intros. apply flat_map_app. Qed.

Lemma registers_trans : forall e e1 e2 a b,
  registers e e1 a -> registers e1 e2 b -> registers e e2 (a ++ b).
Proof.
  intros e e1 e2 a b (O1 & T1 & F1 & R1 & N1 & evs1 & L1 & W1)
                     (O2 & T2 & F2 & R2 & N2 & evs2 & L2 & W2).
  unfold registers, somes in *.
  rewrite O2, T2, F2, R2, N2, R1, N1, !map_app, !app_assoc.
  repeat split; try assumption.
  exists (evs1 ++ evs2)%list. rewrite L2, L1, app_assoc, warnings_app, W1, W2.
  now split.
Qed.

Lemma reset_layer_direction_run : forall gate_size layer direction e,
  exists e',
    reset_layer_direction gate_size (spec_num_directions (options (this e)))
                          layer direction e = (Ok tt, e') /\
    registers e e' (spec_layer_params (options (this e)) gate_size layer direction).
Proof.
  intros g l d e. unfold reset_layer_direction, torch_empty, register_parameter.
  run_monad.
  rewrite layer_names_eq.
  unfold spec_layer_params, spec_layer_input_size, registers, registered, shapes_of, somes.
  destruct (bias (options (this e))) eqn:Eb;
    cbn [app combine for_each fst snd]; run_monad;
    (eexists; split; [reflexivity|]);
    cbn [this options is_training _flat_weights _flat_weights_names parameters_
         with_names with_parameters log map fst snd option_map t_sizes];
    rewrite !map_app, <- !app_assoc; cbn [map app fst snd option_map t_sizes];
    (repeat split; try reflexivity);
    eexists; (split; [reflexivity|]); reflexivity.
Qed.

Lemma for_each_registers : forall (A : Type) (o : RNNOptionsBase)
    (body : A -> M unit) (entries : A -> list (string * list Z)),
  (forall x e, options (this e) = o ->
     exists e', body x e = (Ok tt, e') /\ registers e e' (entries x)) ->
  forall xs e, options (this e) = o ->
    exists e', for_each xs body e = (Ok tt, e') /\
               registers e e' (flat_map entries xs).
Proof.
  intros A o body entries Hstep xs.
  induction xs as [|x xs IH]; intros e Ho; cbn [for_each flat_map].
  - exists e. split; [reflexivity | apply registers_refl].
  - destruct (Hstep x e Ho) as (e1 & E1 & R1).
    assert (Ho1 : options (this e1) = o) by (destruct R1 as [O1 _]; congruence).
    destruct (IH e1 Ho1) as (e2 & E2 & R2).
    exists e2. split.
    + unfold bind. now rewrite E1.
    + now apply registers_trans with e1.
Qed.

Lemma reset_loops_run : forall gate_size e,
  let o := options (this e) in
  exists e',
    for_each (range (num_layers o)) (fun layer =>
      for_each (range (spec_num_directions o)) (fun direction =>
        reset_layer_direction gate_size (spec_num_directions o) layer direction)) e
    = (Ok tt, e') /\
    registers e e' (spec_layout o gate_size).
Proof.
  intros g e o. unfold spec_layout.
  apply for_each_registers with (o := o); [|reflexivity].
  intros layer e1 Ho1.
  apply for_each_registers with (o := o); [|exact Ho1].
  intros direction e2 Ho2. rewrite <- Ho2.
  apply reset_layer_direction_run.
Qed.

Lemma reset_eq : forall e,
  let o := options (this e) in
  reset e =
  if dropout_in_range (dropout o)
  then
    let e_w := if PrimFloat.ltb 0%float (dropout o) && (num_layers o =? 1)
               then mkEnv (this e) (next_ptr e) (log e ++ [EvWarn dropout_warning])
               else e in
    match gate_size_of o with
    | Ok g =>
        (for_each (range (num_layers o)) (fun layer =>
           for_each (range (spec_num_directions o)) (fun direction =>
             reset_layer_direction g (spec_num_directions o) layer direction)) ;;
         reset_flat_weights ;;
         flatten_parameters ;;
         reset_parameters)
          (mkEnv (with_names (this e) [] []) (next_ptr e_w) (log e_w))
    | Raise m => (Raise m, e_w)
    | Undef => (Undef, e_w)
    end
  else (Raise dropout_message, e).
Proof.
  intros e o. subst o. cbv zeta. unfold reset, dropout_in_range, TORCH_WARN.
  unfold bind at 1, get_this at 1. unfold bind at 1, lift at 1, TORCH_CHECK.
  destruct (_ && _)%bool; [|reflexivity].
  unfold bind at 1.
  destruct (PrimFloat.ltb 0 (dropout (options (this e))) && _)%bool.
  - unfold emit at 1. unfold bind at 1, lift at 1.
    destruct (gate_size_of _); reflexivity.
  - unfold ret at 1. unfold bind at 1, lift at 1.
    destruct (gate_size_of _); reflexivity.
Qed.

Lemma reset_flat_weights_run : forall e,
  reset_flat_weights e =
  (Ok tt,
   mkEnv (with_flat_weights (this e)
            (map (fun wn => match lookup wn (parameters_ (this e)) with
                            | Some t => t
                            | None => None
                            end) (_flat_weights_names (this e))))
         (next_ptr e) (log e)).
Proof. reflexivity. Qed.

Lemma for_each_uniform : forall ws low high e,
  for_each ws (fun weight => uniform_ weight low high) e =
  (Ok tt, mkEnv (this e) (next_ptr e)
                (log e ++ map (fun weight => EvUniform weight low high) ws)).
Proof.
  induction ws as [|w ws IH]; intros low high e; cbn [for_each map].
  - destruct e. cbn. now rewrite app_nil_r.
  - unfold bind, uniform_ at 1, emit. rewrite IH. cbn [this next_ptr log].
    now rewrite <- app_assoc.
Qed.

Lemma warnings_uniform : forall ws low high,
  warnings (map (fun weight => EvUniform weight low high) ws) = [].
Proof. induction ws as [|w ws IH]; intros; cbn; auto. Qed.

Lemma reset_parameters_run : forall e,
  exists evs,
    reset_parameters e = (Ok tt, mkEnv (this e) (next_ptr e) (log e ++ evs)) /\
    warnings evs = [].
Proof.
  intros e. unfold reset_parameters, parameters. run_monad.
  rewrite for_each_uniform. eexists. split; [reflexivity|].
  apply warnings_uniform.
Qed.

(** *** The in-place call keeps names and shapes *)

Lemma set_data_ptr_sizes : forall t p,
  option_map t_sizes (set_data_ptr t p) = option_map t_sizes t.
Proof. intros [i|] p; reflexivity. Qed.

Lemma lookup_sizes_registered : forall n d d',
  shapes_of d = shapes_of d' ->
  option_map (option_map t_sizes) (lookup n d) =
  option_map (option_map t_sizes) (lookup n d').
Proof.
  intros n. induction d as [|[n0 t0] d IH]; intros [|[n1 t1] d'] E;
    cbn in E; try discriminate; [reflexivity|].
  injection E as En Et Ed. subst n1. cbn [lookup].
  destruct (String.eqb n0 n); cbn [option_map]; [now rewrite Et | now apply IH].
Qed.

Lemma rebind_registered : forall n t d,
  (forall t0, lookup n d = Some t0 ->
     option_map t_sizes t = option_map t_sizes t0) ->
  shapes_of (rebind n t d) = shapes_of d.
Proof.
  intros n t. induction d as [|[n0 t0] d IH]; intros Hs; [reflexivity|].
  cbn [rebind lookup] in *. destruct (String.eqb n0 n) eqn:E.
  - unfold shapes_of. cbn [map fst snd]. now rewrite (Hs t0 eq_refl).
  - unfold shapes_of in *. cbn [map fst snd]. now rewrite IH.
Qed.

Lemma fold_rebind_registered : forall nts d,
  (forall n t, In (n, t) nts -> forall t0, lookup n d = Some t0 ->
     option_map t_sizes t = option_map t_sizes t0) ->
  shapes_of (fold_left (fun d nt => rebind (fst nt) (snd nt) d) nts d) =
  shapes_of d.
Proof.
  induction nts as [|[n t] nts IH]; intros d Hs; [reflexivity|].
  cbn [fold_left fst snd].
  assert (E1 : shapes_of (rebind n t d) = shapes_of d).
  { apply rebind_registered. intros t0. apply Hs. now left. }
  rewrite IH; [exact E1|].
  intros n' t' Hin t0' Hl.
  pose proof (lookup_sizes_registered n' _ _ E1) as El. rewrite Hl in El.
  destruct (lookup n' d) as [t0|] eqn:Hl0; cbn [option_map] in El;
    [|discriminate].
  injection El as El. rewrite El. apply (Hs n' t'); [now right | exact Hl0].
Qed.

Lemma combine_map_In : forall (f : string -> Tensor) names n t,
  In (n, t) (combine names (map f names)) -> t = f n.
Proof.
  intros f. induction names as [|x names IH]; intros n t; cbn; [intros []|].
  intros [E|Hin]; [now injection E as <- <- | now apply IH].
Qed.

Lemma combine_repoint_sizes : forall (f : string -> Tensor) names ptrs n t,
  In (n, t) (combine names (repoint (map f names) ptrs)) ->
  option_map t_sizes t = option_map t_sizes (f n).
Proof.
  intros f. induction names as [|x names IH]; intros ptrs n t; [intros []|].
  destruct ptrs as [|p ptrs]; cbn [map repoint combine].
  - intros Hin. change (f x :: map f names) with (map f (x :: names)) in Hin.
    now rewrite (combine_map_In f (x :: names) n t Hin).
  - intros [E|Hin].
    + injection E as <- <-. apply set_data_ptr_sizes.
    + now apply IH with ptrs.
Qed.

(** A run of [flatten_parameters] that returns leaves names and shapes of
    the parameters as they were, and gives no warning. *)
Lemma flatten_parameters_keeps : forall e e',
  flatten_parameters e = (Ok tt, e') ->
  _flat_weights (this e) =
    map (fun wn => match lookup wn (parameters_ (this e)) with
                   | Some t => t
                   | None => None
                   end) (_flat_weights_names (this e)) ->
  options (this e') = options (this e) /\
  is_training (this e') = is_training (this e) /\
  _flat_weights_names (this e') = _flat_weights_names (this e) /\
  registered (this e') = registered (this e) /\
  exists evs, log e' = (log e ++ evs)%list /\ warnings evs = [].
Proof.
  intros e e' Er Efw.
  assert (Hsame : e' = e -> options (this e') = options (this e) /\
    is_training (this e') = is_training (this e) /\
    _flat_weights_names (this e') = _flat_weights_names (this e) /\
    registered (this e') = registered (this e) /\
    exists evs, log e' = (log e ++ evs)%list /\ warnings evs = []).
  { intros ->. repeat split. exists []. now rewrite app_nil_r. }
  revert Er. unfold flatten_parameters. run_monad.
  destruct (negb (Nat.eqb _ _)); [intros E; injection E as <-; now apply Hsame|].
  destruct (_flat_weights (this e)) as [|first_fw rest] eqn:Ef; [discriminate|].
  rewrite <- Ef.
  destruct (existsb _ _); [intros E; injection E as <-; now apply Hsame|].
  destruct (negb (Nat.eqb _ _)); [intros E; injection E as <-; now apply Hsame|].
  destruct (get_cudnn_mode_for_rnn _) as [cm| |]; try discriminate.
  destruct (_cudnn_rnn_flatten_weight _ _ _ _ _ _ _ _) as [ptrs| |];
    try discriminate.
  intros E. injection E as <-.
  cbn [this log options is_training _flat_weights_names parameters_
       with_flat_weights with_parameters].
  repeat split.
  - unfold registered. cbn [parameters_ with_flat_weights with_parameters].
    apply fold_rebind_registered.
    intros n t Hin t0 Hl. rewrite Ef, Efw in Hin.
    apply combine_repoint_sizes in Hin. now rewrite Hin, Hl.
  - eexists. split; [reflexivity|]. reflexivity.
Qed.

Lemma gate_size_of_spec : forall o,
  gate_size_of o = match spec_gate_size o with
                   | Some g => Ok g
                   | None => Raise ("Unrecognized RNN mode: " ++ get_enum_name (mode o))
                   end.
Proof. intros o. unfold gate_size_of, spec_gate_size. now destruct (mode o). Qed.





(** What a run of [reset] that returns has done. *)
Lemma reset_ok : forall e e',
  reset e = (Ok tt, e') ->
  let o := options (this e) in
  dropout_in_range (dropout o) = true /\
  exists g,
    spec_gate_size o = Some g /\
    options (this e') = o /\
    registered (this e') = (registered (this e) ++ somes (spec_layout o g))%list /\
    _flat_weights_names (this e') = map fst (spec_layout o g) /\
    warnings (new_events e e') =
      if PrimFloat.ltb 0%float (dropout o) && (num_layers o =? 1)
      then [dropout_warning] else [].
Proof.
  intros e e' Er o. subst o. rewrite reset_eq in Er. cbv zeta in Er.
  destruct (dropout_in_range _); [|discriminate].
  split; [reflexivity|].
  rewrite gate_size_of_spec in Er.
  destruct (spec_gate_size (options (this e))) as [g|] eqn:Eg; [|discriminate].
  exists g. split; [reflexivity|].
  set (e_w := if PrimFloat.ltb 0 (dropout (options (this e)))
                 && (num_layers (options (this e)) =? 1)
              then mkEnv (this e) (next_ptr e) (log e ++ [EvWarn dropout_warning])
              else e) in *.
  set (e1 := mkEnv (with_names (this e) [] []) (next_ptr e_w) (log e_w)) in *.
  destruct (reset_loops_run g e1) as (e2 & E2 & R2).
  change (options (this e1)) with (options (this e)) in E2, R2.
  unfold bind at 1 in Er. rewrite E2 in Er.
  unfold bind at 1 in Er. rewrite reset_flat_weights_run in Er.
  unfold bind at 1 in Er.
  match type of Er with
  | context [flatten_parameters ?x] => set (e3 := x) in *
  end.
  destruct (flatten_parameters e3) as [[[]| |] e4] eqn:E4; try discriminate.
  destruct (flatten_parameters_keeps _ _ E4 eq_refl) as (O4 & T4 & N4 & R4 & evs4 & L4 & W4).
  destruct (reset_parameters_run e4) as (evs5 & E5 & W5).
  rewrite E5 in Er. injection Er as <-.
  destruct R2 as (O2 & T2 & F2 & Rg2 & N2 & evs2 & L2 & W2).
  cbn [this log] in *.
  change (this e3) with
    (with_flat_weights (this e2)
       (map (fun wn => match lookup wn (parameters_ (this e2)) with
                       | Some t => t
                       | None => None
                       end) (_flat_weights_names (this e2)))) in O4, T4, N4, R4.
  change (log e3) with (log e2) in L4.
  repeat split.
  - rewrite O4. exact O2.
  - rewrite R4. exact Rg2.
  - rewrite N4. cbn [_flat_weights_names with_flat_weights]. exact N2.
  - assert (Elog : (log e4 ++ evs5 =
                    log e ++ ((if PrimFloat.ltb 0 (dropout (options (this e)))
                                  && (num_layers (options (this e)) =? 1)
                               then [EvWarn dropout_warning] else [])
                              ++ evs2 ++ evs4 ++ evs5))%list).
    { rewrite L4, L2. subst e1 e_w. cbn [log].
      destruct (_ && _)%bool; cbn [log]; now rewrite <- ?app_assoc. }
    unfold new_events. cbn [log]. rewrite Elog.
    rewrite skipn_app, skipn_all, Nat.sub_diag. cbn [skipn app].
    rewrite !warnings_app, W2, W4, W5.
    destruct (_ && _)%bool; reflexivity.
Qed.


End ResetRun.

Section Construction.
Context `{Torch}.

Lemma RNNImplBase_ctor_eq : forall o e,
  RNNImplBase_ctor o e = reset (mkEnv (new_module o) (next_ptr e) (log e)).
Proof. reflexivity. Qed.

Lemma map_fst_flat_map : forall (A : Type) (f : A -> list (string * list Z)) xs,
  map fst (flat_map f xs) = flat_map (fun x => map fst (f x)) xs.
Proof.
  intros A f. induction xs as [|x xs IH]; cbn; [reflexivity|].
  now rewrite map_app, IH.
Qed.

Lemma map_fst_layer_params : forall o g layer direction,
  map fst (spec_layer_params o g layer direction) =
  spec_layer_names (bias o) layer direction.
Proof.
  intros o g l d. unfold spec_layer_params, spec_layer_names.
  now destruct (bias o).
Qed.

Lemma map_fst_somes : forall l, map fst (somes l) = map fst l.
Proof. intros l. unfold somes. rewrite map_map. reflexivity. Qed.

Lemma map_fst_shapes_of : forall d, map fst (shapes_of d) = map fst d.
Proof. intros d. unfold shapes_of. rewrite map_map. reflexivity. Qed.

Lemma In_range : forall n i, In i (range n) <-> 0 <= i < n.
Proof.
  intros n i. unfold range. rewrite in_map_iff. split.
  - intros (k & <- & Hk). apply in_seq in Hk. lia.
  - intros Hi. exists (Z.to_nat i). split; [lia|]. apply in_seq. lia.
Qed.

(** The state in which the constructor leaves a module. *)
Lemma ctor_ok : forall o e e',
  RNNImplBase_ctor o e = (Ok tt, e') ->
  dropout_in_range (dropout o) = true /\
  exists g,
    spec_gate_size o = Some g /\
    options (this e') = o /\
    registered (this e') = somes (spec_layout o g) /\
    warnings (new_events e e') =
      if PrimFloat.ltb 0%float (dropout o) && (num_layers o =? 1)
      then [dropout_warning] else [].
Proof.
  intros o e e' Ec. rewrite RNNImplBase_ctor_eq in Ec.
  destruct (reset_ok _ _ Ec) as (Hd & g & Eg & Ho & Hr & _ & Hw).
  cbn [this options new_module] in *.
  split; [exact Hd|]. exists g. repeat split; assumption.
Qed.

(** C6.  The registered parameters are named after the templates
    [weight_ih_l{layer}{suffix}], [weight_hh_l{layer}{suffix}],
    [bias_ih_l{layer}{suffix}] and [bias_hh_l{layer}{suffix}], with the
    layer number for [{layer}] and, for [{suffix}], [_reverse] in direction 1
    and nothing in direction 0: layer 0 forward gives [weight_ih_l0], layer
    1 reverse gives [weight_ih_l1_reverse].  A constructed module holds
    exactly these names, layer by layer and direction by direction. *)
Theorem C6_parameter_names : forall layer direction with_biases o e e',
  let suffix := if direction =? 1 then "_reverse" else "" in
  map (fill_template layer (direction_suffix direction))
      (param_name_templates with_biases) =
    List.app
      ["weight_ih_l" ++ to_string layer ++ suffix;
       "weight_hh_l" ++ to_string layer ++ suffix]
      (if with_biases
       then ["bias_ih_l" ++ to_string layer ++ suffix;
             "bias_hh_l" ++ to_string layer ++ suffix]
       else []) /\
  fill_template 0 (direction_suffix 0) "weight_ih_l{layer}{suffix}" = "weight_ih_l0" /\
  fill_template 1 (direction_suffix 1) "weight_ih_l{layer}{suffix}"
    = "weight_ih_l1_reverse" /\
  (RNNImplBase_ctor o e = (Ok tt, e') ->
   map fst (parameters_ (this e')) =
   flat_map (fun l =>
     flat_map (fun d => map (fill_template l (direction_suffix d))
                            (param_name_templates (bias o)))
              (range (if bidirectional o then 2 else 1)))
     (range (num_layers o))).
Proof.
  intros layer direction b o e e' suffix.
  split; [|split; [|split]].
  - rewrite layer_names_eq. subst suffix. unfold spec_param_name.
    destruct b; reflexivity.
  - reflexivity.
  - reflexivity.
  - intros Ec. destruct (ctor_ok _ _ _ Ec) as (_ & g & _ & _ & Hr & _).
    apply (f_equal (map fst)) in Hr. unfold registered in Hr.
    rewrite map_fst_shapes_of, map_fst_somes in Hr. rewrite Hr.
    unfold spec_layout. rewrite map_fst_flat_map.
    apply flat_map_ext. intros l. rewrite map_fst_flat_map.
    apply flat_map_ext. intros d. rewrite map_fst_layer_params.
    now rewrite layer_names_eq.
Qed.

(** C2.  A module that [reset] accepts has registered, for every layer and
    then every direction, [weight_ih] of shape [[gate_size, layer_input_size]]
    with [layer_input_size = input_size] in layer 0 and
    [hidden_size * num_directions] above it, [weight_hh] of shape
    [[gate_size, hidden_size]] and, exactly when [bias()] holds, two biases
    of shape [[gate_size]], and nothing else; [gate_size] is
    [4 * hidden_size] for LSTM, [3 * hidden_size] for GRU and [hidden_size]
    for the two plain modes, and any other mode makes [reset] raise. *)
Theorem C2_registered_parameter_shapes : forall o e,
  (forall n, mode o = kOther n -> raises (fst (RNNImplBase_ctor o e))) /\
  (forall e',
     RNNImplBase_ctor o e = (Ok tt, e') ->
     let num_directions := if bidirectional o then 2 else 1 in
     exists gate_size,
       gate_size_of o = Ok gate_size /\
       gate_size = match mode o with
                   | kLSTM => mul64 4 (hidden_size o)
                   | kGRU => mul64 3 (hidden_size o)
                   | _ => hidden_size o
                   end /\
       registered (this e') = somes (spec_layout o gate_size) /\
       forall layer direction,
         0 <= layer < num_layers o -> 0 <= direction < num_directions ->
         let layer_input_size :=
           if layer =? 0 then input_size o
           else mul64 (hidden_size o) num_directions in
         In (spec_param_name "weight_ih" layer direction,
             Some [gate_size; layer_input_size]) (registered (this e')) /\
         In (spec_param_name "weight_hh" layer direction,
             Some [gate_size; hidden_size o]) (registered (this e')) /\
         (bias o = true ->
          In (spec_param_name "bias_ih" layer direction, Some [gate_size])
             (registered (this e')) /\
          In (spec_param_name "bias_hh" layer direction, Some [gate_size])
             (registered (this e')))).
Proof.
  intros o e. split.
  - intros n Hm. rewrite RNNImplBase_ctor_eq, reset_eq.
    cbn [this options new_module]. cbv zeta.
    destruct (dropout_in_range (dropout o)); [|eexists; reflexivity].
    rewrite gate_size_of_spec. unfold spec_gate_size. rewrite Hm.
    eexists. reflexivity.
  - intros e' Ec num_directions.
    destruct (ctor_ok _ _ _ Ec) as (_ & g & Eg & _ & Hr & _).
    exists g. split; [rewrite gate_size_of_spec; now rewrite Eg|].
    split.
    { unfold spec_gate_size in Eg. destruct (mode o); congruence. }
    split; [exact Hr|].
    intros layer direction Hl Hd layer_input_size.
    assert (Hin : forall entry,
              In entry (spec_layer_params o g layer direction) ->
              In (fst entry, Some (snd entry)) (registered (this e'))).
    { intros entry Hentry. rewrite Hr. unfold somes.
      apply in_map_iff. exists entry. split; [reflexivity|].
      unfold spec_layout. apply in_flat_map. exists layer.
      split; [now apply In_range|].
      apply in_flat_map. exists direction. split; [now apply In_range|].
      exact Hentry. }
    unfold spec_layer_params in Hin.
    split; [|split].
    + apply (Hin (_, _)). now left.
    + apply (Hin (_, _)). right. now left.
    + intros Hb. rewrite Hb in Hin. split.
      * apply (Hin (_, _)). right. right. now left.
      * apply (Hin (_, _)). right. right. right. now left.
Qed.


End Construction.

(** ** The statements on concrete modules *)

Lemma toy_flatten_never_fails : @flatten_never_fails toy.
Proof. intros ws stride in_size m hidden layers bf bd. eexists. reflexivity. Qed.

Example check_input_rejects_wrong_rank :
  fst (check_input (cpu_tensor [7; 3] 100) None (env0 (example_module kGRU)))
  = Raise "input must have 3 dimensions, got 2".
Proof. vm_compute. reflexivity. Qed.

Example check_input_accepts_packed_data :
  check_input (ps_data example_packed) (ps_batch_sizes example_packed)
              (env0 (example_module kGRU))
  = (Ok tt, env0 (example_module kGRU)).
Proof. vm_compute. reflexivity. Qed.

Example expected_hidden_size_of_example :
  fst (get_expected_hidden_size (ps_data example_packed)
         (ps_batch_sizes example_packed) (env0 (example_module kGRU)))
  = Ok (4, 4, 5).
Proof. vm_compute. reflexivity. Qed.

Example flatten_on_cpu_module_is_noop :
  @flatten_parameters toy (env0 (example_module kGRU))
  = (Ok tt, env0 (example_module kGRU)).
Proof. vm_compute. reflexivity. Qed.

Example flatten_on_cuda_module_calls_cudnn :
  flatten_calls (log (snd (@flatten_parameters toy (env0 (cuda_module 201)))))
  = [_flat_weights (cuda_module 201)].
Proof. vm_compute. reflexivity. Qed.

Example flatten_on_aliased_weights_is_noop :
  @flatten_parameters toy (env0 (cuda_module 200)) = (Ok tt, env0 (cuda_module 200)).
Proof. vm_compute. reflexivity. Qed.

Example lstm_forward_calls_lstm_once :
  map fst (kernel_calls (log (snd
    (@LSTMImpl.forward_packed toy example_packed None
       (env0 (example_module kLSTM))))))
  = [Klstm].
Proof. vm_compute. reflexivity. Qed.

Example one_layer_dropout_only_warns :
  let r := @RNNImplBase_ctor toy one_layer_dropout_options
             (env0 (new_module one_layer_dropout_options)) in
  fst r = Ok tt /\ warnings (log (snd r)) = [dropout_warning].
Proof. vm_compute. split; reflexivity. Qed.

Example dropout_above_one_raises :
  fst (@RNNImplBase_ctor toy (mkOptions kGRU 3 5 2 true false 1.5%float false)
         (env0 (new_module one_layer_dropout_options)))
  = Raise dropout_message.
Proof. vm_compute. reflexivity. Qed.

(** A module that [reset] accepts, and its layout. *)
Lemma C2_registered_parameter_shapes_witness :
  exists gate_size,
    gate_size_of (example_options kLSTM) = Ok gate_size /\
    registered (example_module kLSTM)
    = somes (spec_layout (example_options kLSTM) gate_size).
Proof.
  destruct (@C2_registered_parameter_shapes toy (example_options kLSTM)
              (env0 (new_module (example_options kLSTM)))) as [_ Hacc].
  destruct (Hacc (snd (@RNNImplBase_ctor toy (example_options kLSTM)
                         (env0 (new_module (example_options kLSTM))))))
    as (g & Eg & _ & Hr & _).
  - vm_compute. reflexivity.
  - exists g. split; [exact Eg | exact Hr].
Defined.

(** The names held by the bidirectional two-layer example. *)
Lemma C6_parameter_names_witness :
  map fst (parameters_ (example_module kGRU)) =
  flat_map (fun l =>
    flat_map (fun d => map (fill_template l (direction_suffix d))
                           (param_name_templates true))
             (range 2))
    (range 2).
Proof.
  destruct (@C6_parameter_names toy 0 0 true (example_options kGRU)
              (env0 (new_module (example_options kGRU)))
              (snd (@RNNImplBase_ctor toy (example_options kGRU)
                      (env0 (new_module (example_options kGRU))))))
    as (_ & _ & _ & Hnames).
  apply Hnames. vm_compute. reflexivity.
Defined.


